(** * gophercoin: ledger store, UTXO scan and miner mempool handling

    A shallow embedding of [blockchain.go] (package main) and of
    [gcd/servers.go] (package gcd), with the properties of the written
    specification stated against it.

    Conventions.
    - A Go [[]byte] is a [string] of 8-bit characters; the nil slice and the
      empty slice are both [""] (the code only ever takes [len] of them).
    - A Go [int] is a [Z]; the one place where the code does arithmetic on
      values ([accumulated += out.Value]) wraps at 64 bits.
    - The bolt bucket ["blocks"] is a finite map from keys to values.
    - Functions of the repository that the two files call but that live in
      files not at hand (block codec, proof of work, coinbase construction,
      script predicates, transaction verification) are the fields of the
      class [Collaborators]. *)

From Stdlib Require Import ZArith String Ascii List Lia Bool PrimFloat.
From Ceres Require Import Ceres.
From stdpp Require Import gmap strings list fin_maps.

Local Open Scope Z_scope.
Local Open Scope string_scope.
Local Open Scope list_scope.

(** ** Bytes, ints and hex *)

Abbreviation bytes := string (only parsing).

Definition len (b : bytes) : Z := Z.of_nat (String.length b).

Definition wrap64 (z : Z) : Z := (z + 2 ^ 63) mod 2 ^ 64 - 2 ^ 63.

Definition int_add (a b : Z) : Z := wrap64 (a + b).

Definition hextable : string := "0123456789abcdef".

Definition hex_digit (n : N) : ascii :=
  match String.get (N.to_nat n) hextable with
  | Some c => c
  | None => "0"%char
  end.

(** encoding/hex.EncodeToString: two lower-case digits per byte, high nibble
    first. *)
Fixpoint EncodeToString (src : bytes) : string :=
  match src with
  | EmptyString => EmptyString
  | String v rest =>
      String (hex_digit (N.shiftr (N_of_ascii v) 4))
        (String (hex_digit (N.land (N_of_ascii v) 15)) (EncodeToString rest))
  end.

(** ** Data model *)

(** Modelled from the spec: the struct declarations of transaction.go and
    block.go are not at hand.  The fields the two files read ([ID], [Vin],
    [Vout], [Txid], [Value], [Hash], [PrevBlockHash], [Transactions],
    [Timestamp]) carry their Go names; the unlocking datum, locking datum and
    nonce follow section 3 of the specification.  [TXInput]'s output index is
    Go's [in.Vout]; it is spelled [Vout_index] here because [Transaction]
    has a field [Vout] too. *)
Record TXInput := mkTXInput {
  Txid : bytes;
  Vout_index : Z;
  ScriptSig : string
}.

Record TXOutput := mkTXOutput {
  Value : Z;
  ScriptPubKey : string
}.

Record Transaction := mkTransaction {
  ID : bytes;
  Vin : list TXInput;
  Vout : list TXOutput
}.

Record Block := mkBlock {
  Timestamp : Z;
  Transactions : list Transaction;
  PrevBlockHash : bytes;
  Hash : bytes;
  Nonce : Z
}.

Definition error := string.

Definition TXOutput_eq_dec (x y : TXOutput) : {x = y} + {x <> y}.
Proof. decide equality; [apply string_dec|apply Z.eq_dec]. Defined.

(** The repository functions and the store behaviour that the embedded code
    relies on without defining them. *)
Class Collaborators := {
  (** [out.CanBeUnlockedWith(address)] *)
  CanBeUnlockedWith : TXOutput -> string -> bool;
  (** [in.CanUnlockOutputWith(address)] *)
  CanUnlockOutputWith : TXInput -> string -> bool;
  (** [tx.IsCoinbase()] *)
  IsCoinbase : Transaction -> bool;
  (** [NewCoinbaseTX(to, data)] *)
  NewCoinbaseTX : string -> string -> Transaction;
  (** the proof-of-work search over (timestamp, transactions, prevHash):
      the nonce found and the block hash *)
  pow_Run : Z -> list Transaction -> bytes -> Z * bytes;
  (** [b.SerializeBlock()]: [None] is a non-nil error *)
  SerializeBlock : Block -> option bytes;
  (** [DeserializeBlock(d)]: [None] is a non-nil error *)
  DeserializeBlock : bytes -> option Block;
  (** the error, if any, with which the store refuses [Put(key, value)] *)
  put_error : bytes -> bytes -> option error;
  (** gcd: [s.db.VerifyTransaction(&tx)] *)
  VerifyTransaction : Transaction -> bool;
  (** gcd: [s.wallet.CreateAddress()] *)
  CreateAddress : string
}.

(** ** The store *)

(** Contents of the bucket [blocksBucket]. *)
Abbreviation DB := (gmap string string) (only parsing).

(** [b.Get(key)]: nil when the key is absent. *)
Definition Get (b : DB) (key : bytes) : bytes := default "" (b !! key).

(** ** Control outcomes and the world *)

Inductive Result (A : Type) : Type :=
| Returned (a : A)
| Panicked (msg : string)
| Exited (code : Z)
| OutOfFuel.

Arguments Returned {A} a.
Arguments Panicked {A} msg.
Arguments Exited {A} code.
Arguments OutOfFuel {A}.

Definition map_result {A B} (f : A -> B) (r : Result A) : Result B :=
  match r with
  | Returned a => Returned (f a)
  | Panicked msg => Panicked msg
  | Exited c => Exited c
  | OutOfFuel => OutOfFuel
  end.

(** [Blockchain]: the tip held in memory and the database the handle points
    to (its bucket contents). *)
Record Blockchain := mkBlockchain {
  tip : bytes;
  db : DB
}.

(** An iterator shares the database of the blockchain it was made from; only
    its position is its own. *)
Record BlockchainIterator := mkIterator {
  currentHash : bytes
}.

(** What a method of [*Blockchain] can touch: the receiver (with its
    database) and standard output. *)
Record World := mkWorld {
  bc : Blockchain;
  stdout : list string
}.

Definition M (A : Type) : Type := World -> Result A * World.

Definition ret {A} (a : A) : M A := fun w => (Returned a, w).

Definition bind {A B} (m : M A) (k : A -> M B) : M B :=
  fun w =>
    match m w with
    | (Returned a, w') => k a w'
    | (Panicked msg, w') => (Panicked msg, w')
    | (Exited c, w') => (Exited c, w')
    | (OutOfFuel, w') => (OutOfFuel, w')
    end.

Notation "x <- m ;; k" := (bind m (fun x => k))
  (at level 100, m at next level, right associativity).
Notation "m ;;; k" := (bind m (fun _ => k))
  (at level 100, right associativity).

Definition panic {A} (msg : string) : M A := fun w => (Panicked msg, w).

Definition Printf (s : string) : M unit :=
  fun w => (Returned tt, mkWorld (bc w) (stdout w ++ [s])).

Definition get_tip : M bytes := fun w => (Returned (tip (bc w)), w).

(** [db.View(fn)]: [fn] runs on a read-only transaction; nothing it does
    reaches the database. *)
Definition View {A} (fn : DB -> A) : M A :=
  fun w => (Returned (fn (db (bc w))), w).

(** What an update closure leaves behind: the bucket as written so far, the
    error it returns, the lines it printed and the assignment it made to
    [bc.tip], if any. *)
Record TxEffect := mkTxEffect {
  tx_bucket : DB;
  tx_err : option error;
  tx_printed : list string;
  tx_tip : option bytes
}.

(** [db.Update(fn)] on a transaction that begins and, when [fn] returns
    nil, commits: commit when [fn] returns nil, roll back otherwise.  Writes
    of [fn] to captured variables and to standard output are outside the
    transaction and stay either way.  The result is the error of [fn].  A
    transaction that cannot begin or whose commit fails is the matter of
    [Update_under] below. *)
Definition Update (fn : DB -> TxEffect) : M (option error) :=
  fun w =>
    let e := fn (db (bc w)) in
    let d := match tx_err e with None => tx_bucket e | Some _ => db (bc w) end in
    let t := match tx_tip e with Some h => h | None => tip (bc w) end in
    (Returned (tx_err e), mkWorld (mkBlockchain t d) (stdout w ++ tx_printed e)).

Section Ledger.
Context `{E : Collaborators}.

(** [b.Put(key, value)] inside a writable transaction. *)
Definition Put (b : DB) (key value : bytes) : DB * option error :=
  match put_error key value with
  | Some e => (b, Some e)
  | None => (<[key := value]> b, None)
  end.

(** Modelled from the spec: [NewBlock] of block.go is not at hand.  Section
    4.1: the proof-of-work search produces a block over the given
    transactions whose [prevHash] is the hash handed in. *)
Definition NewBlock (now : Z) (prevBlockHash : bytes)
    (transactions : list Transaction) : Block :=
  let '(nonce, hash) := pow_Run now transactions prevBlockHash in
  mkBlock now transactions prevBlockHash hash nonce.

(** Modelled from the spec: [genesisBlock] of block.go is not at hand.
    Sections 3 and 4.1: the genesis block holds the single coinbase
    transaction and its [prevHash] is empty. *)
Definition genesisBlock (now : Z) (coinbase : Transaction) : Block :=
  NewBlock now "" [coinbase].

Definition genesisCoinbaseData : string :=
  "May 7 2019, 10:00pm, The Times	Jürgen Klopp makes Liverpool believe they can do the impossible		Matt Dickinson, Chief Sports Writer".

(** The closure that [MineBlock] hands to [db.Update]. *)
Definition MineBlock_update (newBlock : Block) (b : DB) : TxEffect :=
  match SerializeBlock newBlock with
  | None => mkTxEffect b None ["Error serializing new block"] None
  | Some block =>
      match Put b (Hash newBlock) block with
      | (b1, Some _) =>
          mkTxEffect b1 None ["Error updating bucket with new block"] None
      | (b1, None) =>
          match Put b1 "1" (Hash newBlock) with
          | (b2, Some _) =>
              mkTxEffect b2 None ["Error serializing genesis block"] None
          | (b2, None) => mkTxEffect b2 None [] (Some (Hash newBlock))
          end
      end
  end.

(** [func (bc *Blockchain) MineBlock(transactions []*Transaction)]: no
    result.  [now] is the clock reading taken by [NewBlock].  The error of
    the [View] closure is always nil, so its message is never printed; the
    error that [Update] hands back is assigned to [err] and never read. *)
Definition MineBlock (now : Z) (transactions : list Transaction) : M unit :=
  lastHash <- View (fun b => Get b "1") ;;
  let newBlock := NewBlock now lastHash transactions in
  _err <- Update (MineBlock_update newBlock) ;;
  ret tt.

(** The block that a call of [MineBlock] in world [w] builds. *)
Definition MineBlock_newBlock (now : Z) (transactions : list Transaction)
    (w : World) : Block :=
  NewBlock now (Get (db (bc w)) "1") transactions.

(** [func (bc *Blockchain) Iterator() *BlockchainIterator] *)
Definition Iterator : M BlockchainIterator :=
  t <- get_tip ;; ret (mkIterator t).

(** [func (i *BlockchainIterator) Next() *Block]: the block returned and the
    iterator after the call.  When [DeserializeBlock] fails the closure
    prints and leaves [block] nil, and [block.PrevBlockHash] is then a nil
    pointer dereference. *)
Definition Next (i : BlockchainIterator) : M (Block * BlockchainIterator) :=
  decoded <- View (fun b => DeserializeBlock (Get b (currentHash i))) ;;
  match decoded with
  | None =>
      Printf "Error deserializing block" ;;;
      panic "invalid memory address or nil pointer dereference"
  | Some block => ret (block, mkIterator (PrevBlockHash block))
  end.

(** ** Opening and creating the database *)

(** [CreateBlockchain(address)]: [dbExists] is the answer of [DBExists()].
    The result comes with what was printed.  [bolt.Open] on a missing file
    makes an empty database and [CreateBucket] an empty bucket; the three
    [log.Panic] calls inside the closure print the error and panic. *)
Definition CreateBlockchain (dbExists : bool) (address : string) (now : Z)
    : Result Blockchain * list string :=
  if dbExists then (Exited 1, ["Blockchain already exists."])
  else
    let cbtx := NewCoinbaseTX address genesisCoinbaseData in
    let genesis := genesisBlock now cbtx in
    let b : DB := ∅ in
    match SerializeBlock genesis with
    | None => (Panicked "SerializeBlock", ["SerializeBlock"])
    | Some ser =>
        match Put b (Hash genesis) ser with
        | (_, Some e) => (Panicked e, [e])
        | (b1, None) =>
            match Put b1 "l" (Hash genesis) with
            | (_, Some e) => (Panicked e, [e])
            | (b2, None) => (Returned (mkBlockchain (Hash genesis) b2), [])
            end
        end
    end.

(** [NewBlockchain(data)]: [file] is the database file, [None] when
    [DBExists()] is false.  The argument [data] is not used by the code. *)
Definition NewBlockchain (file : option DB) : Result Blockchain * list string :=
  match file with
  | None => (Exited 1, ["No existing blockchain found. Create one first."])
  | Some b => (Returned (mkBlockchain (Get b "1") b), [])
  end.

(** ** Scanning for unspent outputs *)

(** [spentTXOs[txID] != nil] and one of its entries equals [outIdx]. *)
Definition is_spent (spentTXOs : gmap string (list Z)) (txID : string)
    (outIdx : Z) : bool :=
  match spentTXOs !! txID with
  | Some spentOuts => existsb (fun spentOut => Z.eqb spentOut outIdx) spentOuts
  | None => false
  end.

(** [m[k] = append(m[k], v)] on a [map[string][]int]. *)
Definition map_append (m : gmap string (list Z)) (k : string) (v : Z)
    : gmap string (list Z) :=
  <[k := default [] (m !! k) ++ [v]]> m.

(** The loop labelled [Outputs], from index [outIdx] on. *)
Fixpoint scan_outputs (address : string) (spentTXOs : gmap string (list Z))
    (tx : Transaction) (txID : string) (outIdx : Z) (outs : list TXOutput)
    (unspentTXs : list Transaction) : list Transaction :=
  match outs with
  | [] => unspentTXs
  | out :: rest =>
      scan_outputs address spentTXOs tx txID (outIdx + 1) rest
        (if is_spent spentTXOs txID outIdx then unspentTXs
         else if CanBeUnlockedWith out address then unspentTXs ++ [tx]
         else unspentTXs)
  end.

(** The loop over [tx.Vin], entered only when [tx] is not a coinbase. *)
Definition mark_inputs (address : string) (tx : Transaction)
    (spentTXOs : gmap string (list Z)) : gmap string (list Z) :=
  if IsCoinbase tx then spentTXOs
  else
    fold_left
      (fun sp i =>
         if CanUnlockOutputWith i address
         then map_append sp (EncodeToString (Txid i)) (Vout_index i)
         else sp)
      (Vin tx) spentTXOs.

(** One round of [for _, tx := range block.Transactions]. *)
Definition scan_tx (address : string)
    (st : list Transaction * gmap string (list Z)) (tx : Transaction)
    : list Transaction * gmap string (list Z) :=
  let txID := EncodeToString (ID tx) in
  (scan_outputs address (snd st) tx txID 0 (Vout tx) (fst st),
   mark_inputs address tx (snd st)).

Definition scan_block (address : string)
    (st : list Transaction * gmap string (list Z)) (block : Block)
    : list Transaction * gmap string (list Z) :=
  fold_left (scan_tx address) (Transactions block) st.

(** The endless [for] of [FindUnspentTransactions]; [fuel] bounds the number
    of rounds. *)
Fixpoint FindUnspentTransactions_loop (fuel : nat) (address : string)
    (bci : BlockchainIterator)
    (st : list Transaction * gmap string (list Z)) : M (list Transaction) :=
  match fuel with
  | O => fun w => (OutOfFuel, w)
  | S fuel' =>
      r <- Next bci ;;
      let st' := scan_block address st (fst r) in
      if Z.eqb (len (PrevBlockHash (fst r))) 0 then ret (fst st')
      else FindUnspentTransactions_loop fuel' address (snd r) st'
  end.

(** [func (bc *Blockchain) FindUnspentTransactions(address string) []Transaction] *)
Definition FindUnspentTransactions (fuel : nat) (address : string)
    : M (list Transaction) :=
  bci <- Iterator ;;
  FindUnspentTransactions_loop fuel address bci ([], ∅).

(** The traversal that [FindUnspentTransactions] does, keeping the blocks:
    call [Next] until a block with an empty [PrevBlockHash] has been
    yielded. *)
Fixpoint walk (fuel : nat) (bci : BlockchainIterator) (seen : list Block)
    : M (list Block) :=
  match fuel with
  | O => fun w => (OutOfFuel, w)
  | S fuel' =>
      r <- Next bci ;;
      if Z.eqb (len (PrevBlockHash (fst r))) 0 then ret (seen ++ [fst r])
      else walk fuel' (snd r) (seen ++ [fst r])
  end.

Definition blocks_from_tip (fuel : nat) : M (list Block) :=
  bci <- Iterator ;; walk fuel bci [].

(** The two nested loops of [FindUTXO]. *)
Definition collect_outputs (address : string)
    (unspentTransactions : list Transaction) : list TXOutput :=
  fold_left
    (fun UTXOs tx =>
       fold_left
         (fun UTXOs out =>
            if CanBeUnlockedWith out address then UTXOs ++ [out] else UTXOs)
         (Vout tx) UTXOs)
    unspentTransactions [].

(** [func (bc *Blockchain) FindUTXO(address string) []TXOutput] *)
Definition FindUTXO (fuel : nat) (address : string) : M (list TXOutput) :=
  unspentTransactions <- FindUnspentTransactions fuel address ;;
  ret (collect_outputs address unspentTransactions).

(** The inner loop of [FindSpendableOutputs] from index [outIdx] on; the
    boolean reports [break Work]. *)
Fixpoint spend_outputs (address : string) (amount : Z) (txID : string)
    (outIdx : Z) (outs : list TXOutput) (st : Z * gmap string (list Z))
    : Z * gmap string (list Z) * bool :=
  match outs with
  | [] => (st, false)
  | out :: rest =>
      if CanBeUnlockedWith out address && Z.ltb (fst st) amount then
        let accumulated := int_add (fst st) (Value out) in
        let unspentOutputs := map_append (snd st) txID outIdx in
        if Z.geb accumulated amount then (accumulated, unspentOutputs, true)
        else spend_outputs address amount txID (outIdx + 1) rest
               (accumulated, unspentOutputs)
      else spend_outputs address amount txID (outIdx + 1) rest st
  end.

(** The loop labelled [Work]. *)
Fixpoint spend_txs (address : string) (amount : Z)
    (unspentTXs : list Transaction) (st : Z * gmap string (list Z))
    : Z * gmap string (list Z) :=
  match unspentTXs with
  | [] => st
  | tx :: rest =>
      let r := spend_outputs address amount (EncodeToString (ID tx)) 0
                 (Vout tx) st in
      if snd r then fst r else spend_txs address amount rest (fst r)
  end.

(** [func (bc *Blockchain) FindSpendableOutputs(address string, amount int)
    (int, map[string][]int)] *)
Definition FindSpendableOutputs (fuel : nat) (address : string) (amount : Z)
    : M (Z * gmap string (list Z)) :=
  unspentTXs <- FindUnspentTransactions fuel address ;;
  ret (spend_txs address amount unspentTXs (0, ∅)).

(** ** Notions used to state the properties *)

(** The outputs of a transaction, from index [outIdx] on, that the scan
    finds not marked spent and unlockable by [address]. *)
Fixpoint unspent_unlockable (address : string)
    (spentTXOs : gmap string (list Z)) (txID : string) (outIdx : Z)
    (outs : list TXOutput) : list TXOutput :=
  match outs with
  | [] => []
  | out :: rest =>
      (if negb (is_spent spentTXOs txID outIdx) && CanBeUnlockedWith out address
       then [out] else [])
      ++ unspent_unlockable address spentTXOs txID (outIdx + 1) rest
  end.

(** The outputs of a transaction that [address] can unlock. *)
Definition unlockable (address : string) (tx : Transaction) : list TXOutput :=
  List.filter (fun out => CanBeUnlockedWith out address) (Vout tx).

(** How many outputs of [tx] the scan finds unspent and unlockable by
    [address] when the transactions [earlier] have been scanned before
    it. *)
Definition unspent_count (address : string) (earlier : list Transaction)
    (tx : Transaction) : nat :=
  length
    (unspent_unlockable address
       (snd (fold_left (scan_tx address) earlier ([], ∅)))
       (EncodeToString (ID tx)) 0 (Vout tx)).

(** [chain_at d h bs]: following predecessor hashes in [d] from the key [h]
    meets the blocks [bs], each stored under its own hash, and the last of
    them has an empty predecessor hash. *)
Inductive chain_at (d : DB) : bytes -> list Block -> Prop :=
| chain_last (h ser : bytes) (b : Block) :
    d !! h = Some ser -> DeserializeBlock ser = Some b -> h <> "1" ->
    Hash b = h -> PrevBlockHash b = "" -> chain_at d h [b]
| chain_link (h ser : bytes) (b : Block) (rest : list Block) :
    d !! h = Some ser -> DeserializeBlock ser = Some b -> h <> "1" ->
    Hash b = h -> PrevBlockHash b <> "" ->
    chain_at d (PrevBlockHash b) rest -> chain_at d h (b :: rest).

(** Each block's predecessor hash is the hash of the block after it in the
    list, and the last one has none. *)
Fixpoint linked (bs : list Block) : Prop :=
  match bs with
  | [] => True
  | b :: rest =>
      match rest with
      | [] => PrevBlockHash b = ""
      | b' :: _ => PrevBlockHash b = Hash b'
      end /\ linked rest
  end.

(** A call of [MineBlock] that goes through: the block serializes and
    decodes back, the store takes both writes, and the block's hash is a
    32-byte digest not yet used as a key. *)
Definition mines (now : Z) (txs : list Transaction) (w : World) : Prop :=
  exists ser,
    SerializeBlock (MineBlock_newBlock now txs w) = Some ser /\
    DeserializeBlock ser = Some (MineBlock_newBlock now txs w) /\
    put_error (Hash (MineBlock_newBlock now txs w)) ser = None /\
    put_error "1" (Hash (MineBlock_newBlock now txs w)) = None /\
    String.length (Hash (MineBlock_newBlock now txs w)) = 32%nat /\
    db (bc w) !! Hash (MineBlock_newBlock now txs w) = None.

(** [mined_from w0 k w]: [w] comes from [w0] by [k] calls of [MineBlock]
    that all go through. *)
Inductive mined_from (w0 : World) : nat -> World -> Prop :=
| mined_none : mined_from w0 O w0
| mined_more (k : nat) (w : World) (now : Z) (txs : list Transaction) :
    mined_from w0 k w -> mines now txs w ->
    mined_from w0 (S k) (snd (MineBlock now txs w)).

(** The state of a freshly created ledger after [k] appended blocks: before
    the first, the entry "1" is absent; from then on the tip and the entry
    "1" agree and head a chain of exactly [k] blocks. *)
Definition after_mining (genesisHash : bytes) (k : nat) (w : World) : Prop :=
  is_Some (db (bc w) !! genesisHash) /\
  match k with
  | O => db (bc w) !! "1" = None
  | S _ =>
      db (bc w) !! "1" = Some (tip (bc w)) /\
      String.length (tip (bc w)) = 32%nat /\
      exists bs,
        chain_at (db (bc w)) (tip (bc w)) bs /\ length bs = k /\
        Forall (fun b => Hash b <> genesisHash) bs
  end.

(** The outputs that [FindSpendableOutputs] looks at, in the order in which
    it meets them: for each listed transaction in turn, its outputs that the
    address can unlock, each with the transaction id and its index. *)
Fixpoint indexed_unlockable (address : string) (txID : string) (outIdx : Z)
    (outs : list TXOutput) : list (string * Z * TXOutput) :=
  match outs with
  | [] => []
  | out :: rest =>
      (if CanBeUnlockedWith out address then [(txID, outIdx, out)] else [])
      ++ indexed_unlockable address txID (outIdx + 1) rest
  end.

Definition candidates (address : string) (txs : list Transaction)
    : list (string * Z * TXOutput) :=
  flat_map
    (fun tx => indexed_unlockable address (EncodeToString (ID tx)) 0 (Vout tx))
    txs.

(** Take candidates in order, adding up their values and grouping their
    indices by transaction id, until the total has reached the amount or the
    candidates have run out. *)
Fixpoint take_until (amount : Z) (cands : list (string * Z * TXOutput))
    (st : Z * gmap string (list Z)) : Z * gmap string (list Z) :=
  match cands with
  | [] => st
  | (txID, outIdx, out) :: rest =>
      if Z.ltb (fst st) amount then
        take_until amount rest
          (int_add (fst st) (Value out), map_append (snd st) txID outIdx)
      else st
  end.

(** ** Notions used to state further properties *)

(** The value of a lower-case hex digit and the decoding of a hex string,
    two digits to the byte. *)
Definition hex_value (c : ascii) : N :=
  let n := N_of_ascii c in
  if (N.leb 48 n && N.leb n 57)%bool then (n - 48)%N else (n - 87)%N.

Fixpoint DecodeString (s : string) : bytes :=
  match s with
  | String h (String l rest) =>
      String (ascii_of_N (16 * hex_value h + hex_value l)%N) (DecodeString rest)
  | _ => EmptyString
  end.

(** [tx] is not a coinbase and one of its inputs, unlockable by [address],
    refers to output [idx] of the transaction with identity [id]. *)
Definition spends (address : string) (id : bytes) (idx : Z)
    (tx : Transaction) : bool :=
  negb (IsCoinbase tx) &&
  existsb
    (fun i =>
       CanUnlockOutputWith i address && String.eqb (Txid i) id &&
       Z.eqb (Vout_index i) idx)
    (Vin tx).

(** [walks d h bs]: starting at the key [h], the stored bytes decode to the
    blocks [bs] one after the other along [PrevBlockHash], and the last of
    them is the first one whose [PrevBlockHash] is empty. *)
Inductive walks (d : DB) : bytes -> list Block -> Prop :=
| walks_last (h : bytes) (b : Block) :
    DeserializeBlock (Get d h) = Some b -> PrevBlockHash b = "" ->
    walks d h [b]
| walks_more (h : bytes) (b : Block) (rest : list Block) :
    DeserializeBlock (Get d h) = Some b -> PrevBlockHash b <> "" ->
    walks d (PrevBlockHash b) rest -> walks d h (b :: rest).

(** Taking every candidate: the values added up, wrapping at 64 bits, and
    the indices grouped by transaction id. *)
Definition take_all (cands : list (string * Z * TXOutput))
    (st : Z * gmap string (list Z)) : Z * gmap string (list Z) :=
  fold_left
    (fun st c =>
       (int_add (fst st) (Value (snd c)),
        map_append (snd st) (fst (fst c)) (snd (fst c))))
    cands st.

(** The plain sum of the values of a list of candidates. *)
Definition sum_values (cands : list (string * Z * TXOutput)) : Z :=
  fold_right (fun c acc => Value (snd c) + acc) 0 cands.

(** The indices of a list of candidates grouped by transaction id, added to
    a map. *)
Definition group_indices (cands : list (string * Z * TXOutput))
    (m : gmap string (list Z)) : gmap string (list Z) :=
  fold_left (fun m c => map_append m (fst (fst c)) (snd (fst c))) cands m.

(** ** The store failing a transaction by itself *)

(** What bolt can refuse apart from what a closure does: [View] and [Update]
    return an error without running the closure when the transaction cannot
    begin, and [Update] rolls back and returns an error when the commit
    fails after the closure has returned nil. *)
Record StoreFaults := mkStoreFaults {
  view_begin : option error;
  update_begin : option error;
  update_commit : option error
}.

Definition no_faults : StoreFaults := mkStoreFaults None None None.

(** [db.View(fn)] with a transaction that may fail to begin: [None] when the
    closure did not run. *)
Definition View_under {A} (begin : option error) (fn : DB -> A)
    : M (option A) :=
  fun w =>
    match begin with
    | Some _ => (Returned None, w)
    | None => (Returned (Some (fn (db (bc w)))), w)
    end.

(** [db.Update(fn)] with a transaction that may fail to begin and a commit
    that may fail.  What the closure printed and assigned to [bc.tip] stays
    whatever becomes of the transaction. *)
Definition Update_under (begin commit : option error) (fn : DB -> TxEffect)
    : M (option error) :=
  fun w =>
    match begin with
    | Some e => (Returned (Some e), w)
    | None =>
        let e := fn (db (bc w)) in
        let t := match tx_tip e with Some h => h | None => tip (bc w) end in
        match tx_err e, commit with
        | Some err, _ =>
            (Returned (Some err),
             mkWorld (mkBlockchain t (db (bc w))) (stdout w ++ tx_printed e))
        | None, Some err =>
            (Returned (Some err),
             mkWorld (mkBlockchain t (db (bc w))) (stdout w ++ tx_printed e))
        | None, None =>
            (Returned None,
             mkWorld (mkBlockchain t (tx_bucket e)) (stdout w ++ tx_printed e))
        end
    end.

(** The block that [MineBlock] builds under those faults: on the value
    stored under "1", or on nil when the read transaction did not begin. *)
Definition MineBlock_under_block (f : StoreFaults) (now : Z)
    (transactions : list Transaction) (w : World) : Block :=
  NewBlock now
    (match view_begin f with
     | Some _ => ""
     | None => Get (db (bc w)) "1"
     end)
    transactions.

(** [MineBlock] over a store with those faults.  A failed [View] leaves
    [lastHash] nil and prints; the error of [Update] is assigned to [err]
    and never read. *)
Definition MineBlock_under (f : StoreFaults) (now : Z)
    (transactions : list Transaction) : M unit :=
  read <- View_under (view_begin f) (fun b => Get b "1") ;;
  lastHash <- match read with
              | Some h => ret h
              | None => (Printf "Error getting last block" ;;; ret "")
              end ;;
  let newBlock := NewBlock now lastHash transactions in
  _err <- Update_under (update_begin f) (update_commit f)
            (MineBlock_update newBlock) ;;
  ret tt.

End Ledger.

(** ** The miner of package gcd *)

Record Peer := mkPeer {
  Address : string
}.

(** The fields of [Server] that [mineTxs] reads or writes.  [tipHash] is
    [s.db.tip]. *)
Record Server := mkServer {
  memPool : gmap string Transaction;
  miningAddress : string;
  knownNodes : list Peer;
  nodeAddress : string;
  tipHash : bytes
}.

(** One [sendInv(address, kind, items)]. *)
Record Inv := mkInv {
  inv_address : string;
  inv_kind : string;
  inv_items : list bytes
}.

Record Mined := mkMined {
  server_after : Server;
  newBlock : Block;
  included : list Transaction;
  announced : list Inv
}.

(** The zero value that [s.memPool[id]] yields for a missing key. *)
Definition zero_Transaction : Transaction := mkTransaction "" [] [].

Section Miner.
Context `{E : Collaborators}.

(** [for id := range s.memPool]: [ids] is the order in which the runtime
    hands out the keys. *)
Definition collect_verified (ids : list string)
    (pool : gmap string Transaction) : list Transaction :=
  fold_left
    (fun txs id =>
       let tx := default zero_Transaction (pool !! id) in
       if VerifyTransaction tx then txs ++ [tx] else txs)
    ids [].

(** [for _, tx := range txs { delete(s.memPool, hex(tx.ID)) }] *)
Definition remove_mined (txs : list Transaction)
    (pool : gmap string Transaction) : gmap string Transaction :=
  fold_left (fun m tx => delete (EncodeToString (ID tx)) m) txs pool.

(** The loop over [s.knownNodes]. *)
Definition announce (nodes : list Peer) (self : string) (hash : bytes)
    : list Inv :=
  flat_map
    (fun node =>
       if String.eqb (Address node) self then []
       else [mkInv (Address node) "block" [hash]])
    nodes.

(** The coinbase transaction that [mineTxs] makes for the server. *)
Definition miner_coinbase (s : Server) : Transaction :=
  NewCoinbaseTX
    (if String.eqb (miningAddress s) "" then CreateAddress
     else miningAddress s) "".

(** The mempool is keyed by transaction identity (section 3 of the
    specification). *)
Definition keyed_by_id (pool : gmap string Transaction) : Prop :=
  forall k tx, pool !! k = Some tx -> k = EncodeToString (ID tx).

(** [ids] is an enumeration of the keys of the mempool. *)
Definition enumerates (ids : list string) (pool : gmap string Transaction)
    : Prop :=
  forall k, In k ids <-> is_Some (pool !! k).

(** Modelled from the spec: the [MineBlock] of package gcd, which [mineTxs]
    calls for its result, is not at hand.  Section 4.1: it builds the new
    block over the given transactions on the current tip, moves the tip to
    the new block's hash and returns the new block.  The result here is the
    block and the tip after the call. *)
Definition gcd_MineBlock (now : Z) (tipBefore : bytes)
    (transactions : list Transaction) : Block * bytes :=
  let blk := NewBlock now tipBefore transactions in
  (blk, Hash blk).

(** [func (s *Server) mineTxs()].  [ids] is the order in which [range] hands
    out the keys of the mempool and [now] the clock reading of the block.
    [VerifyTransaction] reads the blockchain, which does not change while
    the mempool is being gone through; [Reindex] works on [s.utxoSet]
    alone. *)
Definition mineTxs (ids : list string) (now : Z) (s : Server) : Mined :=
  let txs := collect_verified ids (memPool s) in
  let addr :=
    if String.eqb (miningAddress s) "" then CreateAddress
    else miningAddress s in
  let cbTx := NewCoinbaseTX addr "" in
  let txs := txs ++ [cbTx] in
  let mined := gcd_MineBlock now (tipHash s) txs in
  mkMined
    (mkServer (remove_mined txs (memPool s)) addr (knownNodes s)
       (nodeAddress s) (snd mined))
    (fst mined) txs
    (announce (knownNodes s) (nodeAddress s) (Hash (fst mined))).

(** What one round of the [for]/[select] loop of [StartMiner] receives:
    a value on [quitChan], a transaction id on [minerChan], or the minutes
    since the last block, a [float64], on [timeChan]. *)
Inductive MinerEvent : Type :=
| StopSignal (v : Z)
| TxMessage (msg : bytes)
| TimeMessage (msg : float).

(** The server together with its field [miningTxs]. *)
Record Miner := mkMiner {
  miner_server : Server;
  miningTxs : bool
}.

(** One round of the loop of [StartMiner] on the event received, with the
    block mined in that round, if any.  [ids] and [now] are handed on to
    [mineTxs].  The [break] of the first case leaves the [select], not the
    [for]; around [mineTxs] the flag is set and cleared again. *)
Definition StartMiner_round (ids : list string) (now : Z) (ev : MinerEvent)
    (m : Miner) : Miner * option Mined :=
  match ev with
  | StopSignal _ => (m, None)
  | TxMessage _ =>
      if Z.gtb (Z.of_nat (size (memPool (miner_server m)))) 2 then
        let r := mineTxs ids now (miner_server m) in
        (mkMiner (server_after r) false, Some r)
      else (m, None)
  | TimeMessage msg =>
      if PrimFloat.ltb 2%float msg && negb (miningTxs m) then
        let r := mineTxs ids now (miner_server m) in
        (mkMiner (server_after r) false, Some r)
      else (m, None)
  end.

(** The loop of [StartMiner] run on the events it receives one after the
    other, as long as nothing else touches the server in between: the miner
    after the last round and the blocks mined, oldest first. *)
Fixpoint StartMiner_rounds (evs : list (list string * Z * MinerEvent))
    (m : Miner) : Miner * list Mined :=
  match evs with
  | [] => (m, [])
  | (ids, now, ev) :: rest =>
      let r := StartMiner_round ids now ev m in
      let rs := StartMiner_rounds rest (fst r) in
      (fst rs,
       match snd r with Some b => b :: snd rs | None => snd rs end)
  end.

End Miner.

(** ** A concrete set of collaborators

    Used to run the model on small chains.  Scripts are plain addresses, the
    codec is an S-expression printer and parser, the store refuses what
    bolt's [Put] is documented to refuse, and the digest is a 32-byte
    stand-in that tells apart the blocks of the chains below. *)

Module Sample.

Definition subsidy : Z := 10.

Definition unlocks_output (out : TXOutput) (address : string) : bool :=
  String.eqb (ScriptPubKey out) address.

Definition unlocks_input (i : TXInput) (address : string) : bool :=
  String.eqb (ScriptSig i) address.

Definition is_coinbase (tx : Transaction) : bool :=
  match Vin tx with
  | [i] => Z.eqb (len (Txid i)) 0 && Z.eqb (Vout_index i) (-1)
  | _ => false
  end.

Definition coinbase (to data : string) : Transaction :=
  mkTransaction ("coinbase-" ++ to)%string
    [mkTXInput "" (-1) data] [mkTXOutput subsidy to].

Definition letter (base n : Z) : ascii := ascii_of_N (Z.to_N (base + n mod 26)).

Definition digest (now : Z) (txs : list Transaction) (prev : bytes) : bytes :=
  String (letter 65 now)
    (String (letter 97 (len prev))
       (String (letter 97 (Z.of_nat (length txs)))
          "00000000000000000000000000000")).

Definition pow (now : Z) (txs : list Transaction) (prev : bytes) : Z * bytes :=
  (0, digest now txs prev).

#[local] Instance Serialize_TXInput : Serialize TXInput :=
  fun i =>
    [Atom "in"; to_sexp (Txid i); to_sexp (Vout_index i);
     to_sexp (ScriptSig i)]%sexp.

#[local] Instance Deserialize_TXInput : Deserialize TXInput :=
  Deser.match_con "TXInput" [] [("in", Deser.con3_ mkTXInput)].

#[local] Instance Serialize_TXOutput : Serialize TXOutput :=
  fun o => [Atom "out"; to_sexp (Value o); to_sexp (ScriptPubKey o)]%sexp.

#[local] Instance Deserialize_TXOutput : Deserialize TXOutput :=
  Deser.match_con "TXOutput" [] [("out", Deser.con2_ mkTXOutput)].

#[local] Instance Serialize_Transaction : Serialize Transaction :=
  fun t => [Atom "tx"; to_sexp (ID t); to_sexp (Vin t); to_sexp (Vout t)]%sexp.

#[local] Instance Deserialize_Transaction : Deserialize Transaction :=
  Deser.match_con "Transaction" [] [("tx", Deser.con3_ mkTransaction)].

#[local] Instance Serialize_Block : Serialize Block :=
  fun b =>
    [Atom "block"; to_sexp (Timestamp b); to_sexp (Transactions b);
     to_sexp (PrevBlockHash b); to_sexp (Hash b); to_sexp (Nonce b)]%sexp.

#[local] Instance Deserialize_Block : Deserialize Block :=
  Deser.match_con "Block" [] [("block", Deser.con5_ mkBlock)].

Definition serialized (b : Block) : bytes := to_string b.

Definition encode (b : Block) : option bytes := Some (serialized b).

Definition decode (d : bytes) : option Block :=
  match from_string d with
  | inr b => Some b
  | inl _ => None
  end.

Definition MaxKeySize : Z := 32768.

Definition MaxValueSize : Z := 2 ^ 31 - 2.

Definition bolt_put_error (key value : bytes) : option error :=
  if Z.eqb (len key) 0 then Some "key required"
  else if Z.gtb (len key) MaxKeySize then Some "key too large"
  else if Z.gtb (len value) MaxValueSize then Some "value too large"
  else None.

(** A transaction passes when each of its inputs carries an unlocking
    datum. *)
Definition verifies (tx : Transaction) : bool :=
  forallb (fun i => negb (String.eqb (ScriptSig i) "")) (Vin tx).

Definition with_store (refuse : bytes -> bytes -> option error)
    : Collaborators :=
  {| CanBeUnlockedWith := unlocks_output;
     CanUnlockOutputWith := unlocks_input;
     IsCoinbase := is_coinbase;
     NewCoinbaseTX := coinbase;
     pow_Run := pow;
     SerializeBlock := encode;
     DeserializeBlock := decode;
     put_error := refuse;
     VerifyTransaction := verifies;
     CreateAddress := "miner" |}.

(** The collaborators over a store that behaves as bolt documents. *)
Definition env : Collaborators := with_store bolt_put_error.

(** The same over a store whose write of the key ["1"] fails. *)
Definition env_tip_write_fails : Collaborators :=
  with_store
    (fun key value =>
       if String.eqb key "1" then Some "write failed"
       else bolt_put_error key value).

(** The same over a store that is full: every [Put] fails. *)
Definition env_store_full : Collaborators :=
  with_store (fun _ _ => Some "write failed").

(** The genesis block that [CreateBlockchain] makes for ["alice"] at time 1
    and the blockchain it returns. *)
Definition genesis : Block :=
  genesisBlock (E := env) 1 (coinbase "alice" genesisCoinbaseData).

Definition created : Blockchain :=
  mkBlockchain (Hash genesis)
    (<["l" := Hash genesis]> (<[Hash genesis := serialized genesis]> ∅)).

(** A payment of 5 and 7 to ["bob"], and a later transaction in which
    ["bob"] spends the first of the two. *)
Definition pay_bob : Transaction :=
  mkTransaction "t1" [mkTXInput "coinbase-alice" 0 "alice"]
    [mkTXOutput 5 "bob"; mkTXOutput 7 "bob"].

Definition bob_spends : Transaction :=
  mkTransaction "t2" [mkTXInput "t1" 0 "bob"] [mkTXOutput 5 "carol"].

(** The ledger after [pay_bob] has been mined at time 2, and after
    [bob_spends] has been mined on top of it at time 3. *)
Definition ledger_paid : World :=
  snd (MineBlock (E := env) 2 [pay_bob] (mkWorld created [])).

Definition ledger_spent : World :=
  snd (MineBlock (E := env) 3 [bob_spends] ledger_paid).

(** A server whose mempool holds one transaction that verifies and one that
    does not. *)
Definition unsigned : Transaction :=
  mkTransaction "t3" [mkTXInput "t1" 1 ""] [mkTXOutput 7 "dave"].

Definition server : Server :=
  mkServer
    (<[EncodeToString "t2" := bob_spends]>
       (<[EncodeToString "t3" := unsigned]> ∅))
    "miner" [mkPeer "self:3000"; mkPeer "peer:3000"] "self:3000"
    "Caa00000000000000000000000000000".

(** The same collaborators with a codec that takes every byte string: the
    byte fields go through hex before they are printed and after they are
    parsed. *)
Definition hex_input (i : TXInput) : TXInput :=
  mkTXInput (EncodeToString (Txid i)) (Vout_index i)
    (EncodeToString (ScriptSig i)).

Definition unhex_input (i : TXInput) : TXInput :=
  mkTXInput (DecodeString (Txid i)) (Vout_index i)
    (DecodeString (ScriptSig i)).

Definition hex_output (o : TXOutput) : TXOutput :=
  mkTXOutput (Value o) (EncodeToString (ScriptPubKey o)).

Definition unhex_output (o : TXOutput) : TXOutput :=
  mkTXOutput (Value o) (DecodeString (ScriptPubKey o)).

Definition hex_transaction (t : Transaction) : Transaction :=
  mkTransaction (EncodeToString (ID t)) (map hex_input (Vin t))
    (map hex_output (Vout t)).

Definition unhex_transaction (t : Transaction) : Transaction :=
  mkTransaction (DecodeString (ID t)) (map unhex_input (Vin t))
    (map unhex_output (Vout t)).

Definition hex_block (b : Block) : Block :=
  mkBlock (Timestamp b) (map hex_transaction (Transactions b))
    (EncodeToString (PrevBlockHash b)) (EncodeToString (Hash b)) (Nonce b).

Definition unhex_block (b : Block) : Block :=
  mkBlock (Timestamp b) (map unhex_transaction (Transactions b))
    (DecodeString (PrevBlockHash b)) (DecodeString (Hash b)) (Nonce b).

Definition env_hex : Collaborators :=
  {| CanBeUnlockedWith := unlocks_output;
     CanUnlockOutputWith := unlocks_input;
     IsCoinbase := is_coinbase;
     NewCoinbaseTX := coinbase;
     pow_Run := pow;
     SerializeBlock := fun b => encode (hex_block b);
     DeserializeBlock := fun d => option_map unhex_block (decode d);
     put_error := bolt_put_error;
     VerifyTransaction := verifies;
     CreateAddress := "miner" |}.

(** The blockchain that [CreateBlockchain] returns for ["alice"] at time 1
    with that codec. *)
Definition created_hex : Blockchain :=
  match fst (CreateBlockchain (E := env_hex) false "alice" 1) with
  | Returned chain => chain
  | _ => mkBlockchain "" ∅
  end.

(** A server whose mempool holds three transactions, none of which
    verifies. *)
Definition unsigned4 : Transaction :=
  mkTransaction "t4" [mkTXInput "t1" 1 ""] [mkTXOutput 7 "erin"].

Definition unsigned5 : Transaction :=
  mkTransaction "t5" [mkTXInput "t1" 1 ""] [mkTXOutput 7 "fred"].

Definition clogged : Server :=
  mkServer
    (<[EncodeToString "t3" := unsigned]>
       (<[EncodeToString "t4" := unsigned4]>
          (<[EncodeToString "t5" := unsigned5]> ∅)))
    "miner" [mkPeer "self:3000"; mkPeer "peer:3000"] "self:3000"
    "Caa00000000000000000000000000000".

(** A database whose only block names itself as its predecessor. *)
Definition looping_block : Block := mkBlock 0 [] "loop" "loop" 0.

Definition looping : Blockchain :=
  mkBlockchain "loop" (<["loop" := serialized looping_block]> ∅).

(** A database whose tip entry points at bytes that are not a block. *)
Definition corrupt : Blockchain :=
  mkBlockchain "tip" (<["tip" := "not a block"]> (<["1" := "tip"]> ∅)).

End Sample.

(** * Properties *)

(** ** Basic facts about the store and the monad *)

Section LedgerFacts.
Context `{E : Collaborators}.

Lemma Put_accepts (b : DB) (key value : bytes) :
  put_error key value = None -> Put b key value = (<[key := value]> b, None).
Proof. intros H. unfold Put. now rewrite H. Qed.

Lemma Put_refuses (b : DB) (key value : bytes) (e : error) :
  put_error key value = Some e -> Put b key value = (b, Some e).
Proof. intros H. unfold Put. now rewrite H. Qed.

Lemma NewBlock_PrevBlockHash (now : Z) (prev : bytes) (txs : list Transaction) :
  PrevBlockHash (NewBlock now prev txs) = prev.
Proof. unfold NewBlock. now destruct (pow_Run now txs prev). Qed.

Lemma NewBlock_Transactions (now : Z) (prev : bytes) (txs : list Transaction) :
  Transactions (NewBlock now prev txs) = txs.
Proof. unfold NewBlock. now destruct (pow_Run now txs prev). Qed.

Lemma Get_lookup (b : DB) (key value : bytes) :
  b !! key = Some value -> Get b key = value.
Proof. intros H. unfold Get. now rewrite H. Qed.

Lemma Get_absent (b : DB) (key : bytes) : b !! key = None -> Get b key = "".
Proof. intros H. unfold Get. now rewrite H. Qed.

(** The closure of [MineBlock] returns nil on every path. *)
Lemma MineBlock_update_nil (nb : Block) (b : DB) :
  tx_err (MineBlock_update nb b) = None.
Proof.
  unfold MineBlock_update.
  destruct (SerializeBlock nb) as [ser|]; [|reflexivity].
  destruct (Put b (Hash nb) ser) as [b1 [e1|]]; [reflexivity|].
  destruct (Put b1 "1" (Hash nb)) as [b2 [e2|]]; reflexivity.
Qed.

(** [MineBlock] as one step on the world. *)
Lemma MineBlock_step (now : Z) (txs : list Transaction) (w : World) :
  let e := MineBlock_update (MineBlock_newBlock now txs w) (db (bc w)) in
  MineBlock now txs w =
    (Returned tt,
     mkWorld
       (mkBlockchain (default (tip (bc w)) (tx_tip e)) (tx_bucket e))
       (stdout w ++ tx_printed e)).
Proof.
  intros e. unfold MineBlock, bind, View, Update, ret. cbn.
  fold (MineBlock_newBlock now txs w). fold e.
  pose proof (MineBlock_update_nil (MineBlock_newBlock now txs w) (db (bc w))) as Hnil.
  fold e in Hnil. rewrite Hnil.
  destruct (tx_tip e); reflexivity.
Qed.

Lemma length_32_not_key (h : bytes) :
  String.length h = 32%nat -> h <> "1" /\ h <> "l" /\ h <> "".
Proof. intros H. repeat split; intros ->; discriminate H. Qed.

End LedgerFacts.

(** ** The tip pointer *)

Section TipPointer.
Context `{E : Collaborators}.

(** What a successful [CreateBlockchain] returns. *)
Lemma CreateBlockchain_returned (address : string) (now : Z)
    (chain : Blockchain) (out : list string) :
  CreateBlockchain false address now = (Returned chain, out) ->
  exists ser,
    chain =
      mkBlockchain (tip chain)
        (<["l" := tip chain]> (<[tip chain := ser]> ∅)) /\ out = [].
Proof.
  unfold CreateBlockchain. cbn.
  destruct (SerializeBlock _) as [ser|]; [|discriminate].
  unfold Put.
  destruct (put_error _ ser); [discriminate|].
  destruct (put_error "l" _); [discriminate|].
  intros [= <- <-]. exists ser. split; reflexivity.
Qed.

(** On a database that [CreateBlockchain] has just made the key "l" holds
    the tip and the key "1" is absent. *)
Lemma fresh_ledger_keys (address : string) (now : Z) (chain : Blockchain)
    (out : list string) :
  CreateBlockchain false address now = (Returned chain, out) ->
  String.length (tip chain) = 32%nat ->
  db chain !! "l" = Some (tip chain) /\ db chain !! "1" = None /\
  is_Some (db chain !! tip chain).
Proof.
  intros Hc Hlen.
  destruct (CreateBlockchain_returned _ _ _ _ Hc) as (ser & Hchain & _).
  destruct (length_32_not_key _ Hlen) as (H1 & Hl & Hnil).
  rewrite Hchain. cbn. repeat split.
  - apply lookup_insert_eq.
  - rewrite lookup_insert_ne by discriminate.
    rewrite lookup_insert_ne by (intros Heq; apply H1; exact Heq).
    apply lookup_empty.
  - rewrite lookup_insert_ne by (intros Heq; apply Hl; now rewrite Heq).
    rewrite lookup_insert_eq. eauto.
Qed.

End TipPointer.

(** ** Appending a block *)

Section Append.
Context `{E : Collaborators}.

(** The world after a call of [MineBlock] in which nothing fails. *)
Lemma MineBlock_success_world (now : Z) (txs : list Transaction) (w : World)
    (ser : bytes) :
  SerializeBlock (MineBlock_newBlock now txs w) = Some ser ->
  put_error (Hash (MineBlock_newBlock now txs w)) ser = None ->
  put_error "1" (Hash (MineBlock_newBlock now txs w)) = None ->
  MineBlock now txs w =
    (Returned tt,
     mkWorld
       (mkBlockchain (Hash (MineBlock_newBlock now txs w))
          (<["1" := Hash (MineBlock_newBlock now txs w)]>
             (<[Hash (MineBlock_newBlock now txs w) := ser]> (db (bc w)))))
       (stdout w)).
Proof.
  intros Hser Hput1 Hput2. rewrite MineBlock_step.
  unfold MineBlock_update. rewrite Hser.
  rewrite (Put_accepts _ _ _ Hput1), (Put_accepts _ _ _ Hput2). cbn.
  now rewrite app_nil_r.
Qed.

(** What that world holds, entry by entry. *)
Lemma MineBlock_success (now : Z) (txs : list Transaction) (w : World)
    (ser : bytes) :
  SerializeBlock (MineBlock_newBlock now txs w) = Some ser ->
  put_error (Hash (MineBlock_newBlock now txs w)) ser = None ->
  put_error "1" (Hash (MineBlock_newBlock now txs w)) = None ->
  Hash (MineBlock_newBlock now txs w) <> "1" ->
  exists w',
    MineBlock now txs w = (Returned tt, w') /\
    PrevBlockHash (MineBlock_newBlock now txs w) = Get (db (bc w)) "1" /\
    db (bc w') !! Hash (MineBlock_newBlock now txs w) = Some ser /\
    db (bc w') !! "1" = Some (Hash (MineBlock_newBlock now txs w)) /\
    tip (bc w') = Hash (MineBlock_newBlock now txs w) /\
    (forall k, k <> Hash (MineBlock_newBlock now txs w) -> k <> "1" ->
       db (bc w') !! k = db (bc w) !! k).
Proof.
  intros Hser Hput1 Hput2 Hne.
  eexists. split; [apply (MineBlock_success_world _ _ _ _ Hser Hput1 Hput2)|]. cbn.
  split; [apply NewBlock_PrevBlockHash|].
  split; [|split; [apply lookup_insert_eq|split; [reflexivity|]]].
  - rewrite lookup_insert_ne by (intros Heq; apply Hne; now rewrite Heq).
    apply lookup_insert_eq.
  - intros k Hk1 Hk2.
    rewrite lookup_insert_ne by (intros Heq; apply Hk2; now rewrite Heq).
    now rewrite lookup_insert_ne by (intros Heq; apply Hk1; now rewrite Heq).
Qed.

(** C2, as the code has it: when the block serializes and the store takes
    both writes, [MineBlock] builds a block over the given transactions whose
    predecessor hash is the value stored under the key "1", stores the
    serialized block under the block's hash, sets the entry "1" and [bc.tip]
    to that hash, leaves every other entry alone and prints nothing.  The
    call itself yields no value. *)
Theorem MineBlock_commits (now : Z) (txs : list Transaction) (w : World)
    (ser : bytes) :
  SerializeBlock (MineBlock_newBlock now txs w) = Some ser ->
  put_error (Hash (MineBlock_newBlock now txs w)) ser = None ->
  put_error "1" (Hash (MineBlock_newBlock now txs w)) = None ->
  Hash (MineBlock_newBlock now txs w) <> "1" ->
  exists w',
    MineBlock now txs w = (Returned tt, w') /\
    PrevBlockHash (MineBlock_newBlock now txs w) = Get (db (bc w)) "1" /\
    Transactions (MineBlock_newBlock now txs w) = txs /\
    db (bc w') !! Hash (MineBlock_newBlock now txs w) = Some ser /\
    db (bc w') !! "1" = Some (Hash (MineBlock_newBlock now txs w)) /\
    tip (bc w') = Hash (MineBlock_newBlock now txs w) /\
    (forall k, k <> Hash (MineBlock_newBlock now txs w) -> k <> "1" ->
       db (bc w') !! k = db (bc w) !! k) /\
    stdout w' = stdout w.
Proof.
  intros Hser Hput1 Hput2 Hne.
  set (nb := MineBlock_newBlock now txs w) in *.
  exists (mkWorld
            (mkBlockchain (Hash nb)
               (<["1" := Hash nb]> (<[Hash nb := ser]> (db (bc w)))))
            (stdout w)).
  split; [apply (MineBlock_success_world _ _ _ _ Hser Hput1 Hput2)|]. cbn.
  repeat split.
  - apply NewBlock_PrevBlockHash.
  - apply NewBlock_Transactions.
  - rewrite lookup_insert_ne by (intros Heq; apply Hne; now rewrite Heq).
    apply lookup_insert_eq.
  - apply lookup_insert_eq.
  - intros k Hk1 Hk2.
    rewrite lookup_insert_ne by (intros Heq; apply Hk2; now rewrite Heq).
    rewrite lookup_insert_ne by (intros Heq; apply Hk1; now rewrite Heq).
    reflexivity.
Qed.

(** C4, as the code has it: no failure inside [MineBlock] reaches the
    caller.  The update closure returns nil on every path, so the transaction
    always commits, and the call ends as after a success.  A failed
    serialization or a failed write of the block leaves the database and the
    tip as they were; a failed write of the entry "1" leaves the block
    stored and both the entry and [bc.tip] where they were.  The only trace
    of a failure is one printed line. *)
Theorem MineBlock_swallows_failures (now : Z) (txs : list Transaction)
    (w : World) :
  tx_err (MineBlock_update (MineBlock_newBlock now txs w) (db (bc w))) = None /\
  fst (MineBlock now txs w) = Returned tt /\
  (SerializeBlock (MineBlock_newBlock now txs w) = None ->
   snd (MineBlock now txs w) =
     mkWorld (bc w) (stdout w ++ ["Error serializing new block"])) /\
  (forall ser e,
     SerializeBlock (MineBlock_newBlock now txs w) = Some ser ->
     put_error (Hash (MineBlock_newBlock now txs w)) ser = Some e ->
     snd (MineBlock now txs w) =
       mkWorld (bc w) (stdout w ++ ["Error updating bucket with new block"])) /\
  (forall ser e,
     SerializeBlock (MineBlock_newBlock now txs w) = Some ser ->
     put_error (Hash (MineBlock_newBlock now txs w)) ser = None ->
     put_error "1" (Hash (MineBlock_newBlock now txs w)) = Some e ->
     snd (MineBlock now txs w) =
       mkWorld
         (mkBlockchain (tip (bc w))
            (<[Hash (MineBlock_newBlock now txs w) := ser]> (db (bc w))))
         (stdout w ++ ["Error serializing genesis block"])).
Proof.
  set (nb := MineBlock_newBlock now txs w).
  split; [apply MineBlock_update_nil|].
  rewrite (MineBlock_step now txs w). fold nb. cbn.
  split; [reflexivity|].
  destruct w as [[t d] o]. cbn.
  split; [|split].
  - intros Hser. unfold MineBlock_update. rewrite Hser. reflexivity.
  - intros ser e Hser Hput. unfold MineBlock_update. rewrite Hser.
    rewrite (Put_refuses _ _ _ _ Hput). reflexivity.
  - intros ser e Hser Hput1 Hput2. unfold MineBlock_update. rewrite Hser.
    rewrite (Put_accepts _ _ _ Hput1), (Put_refuses _ _ _ _ Hput2).
    reflexivity.
Qed.

End Append.

Lemma MineBlock_commits_witness :
  exists w',
    MineBlock (E := Sample.env) 2 [] (mkWorld Sample.created []) =
      (Returned tt, w') /\
    PrevBlockHash
      (MineBlock_newBlock (E := Sample.env) 2 [] (mkWorld Sample.created [])) =
      Get (db Sample.created) "1" /\
    Transactions
      (MineBlock_newBlock (E := Sample.env) 2 [] (mkWorld Sample.created [])) =
      [] /\
    db (bc w') !! "Caa00000000000000000000000000000" =
      Some
        (Sample.serialized
           (MineBlock_newBlock (E := Sample.env) 2 []
              (mkWorld Sample.created []))) /\
    db (bc w') !! "1" = Some "Caa00000000000000000000000000000" /\
    tip (bc w') = "Caa00000000000000000000000000000" /\
    (forall k, k <> "Caa00000000000000000000000000000" -> k <> "1" ->
       db (bc w') !! k = db Sample.created !! k) /\
    stdout w' = [].
Proof.
  apply (MineBlock_commits (E := Sample.env) 2 [] (mkWorld Sample.created [])
           (Sample.serialized
              (MineBlock_newBlock (E := Sample.env) 2 []
                 (mkWorld Sample.created [])))).
  - reflexivity.
  - vm_compute. reflexivity.
  - vm_compute. reflexivity.
  - vm_compute. discriminate.
Defined.

(** C2 as stated fails on the code in two ways.  Right after
    [CreateBlockchain] the tip is the genesis hash, yet the block that
    [MineBlock] builds has an empty predecessor hash.  And when the store
    takes no write, the call ends normally with the new block not stored and
    neither the entry "1" nor [bc.tip] moved. *)
Lemma MineBlock_commits_counterexample :
  tip Sample.created = "Bab00000000000000000000000000000" /\
  PrevBlockHash
    (MineBlock_newBlock (E := Sample.env) 2 [] (mkWorld Sample.created [])) =
    "" /\
  fst (MineBlock (E := Sample.env_store_full) 2 []
         (mkWorld Sample.created [])) = Returned tt /\
  db (bc (snd (MineBlock (E := Sample.env_store_full) 2 []
                 (mkWorld Sample.created []))))
    !! Hash (MineBlock_newBlock (E := Sample.env_store_full) 2 []
               (mkWorld Sample.created [])) = None /\
  db (bc (snd (MineBlock (E := Sample.env_store_full) 2 []
                 (mkWorld Sample.created [])))) !! "1" = None /\
  tip (bc (snd (MineBlock (E := Sample.env_store_full) 2 []
                  (mkWorld Sample.created [])))) =
    "Bab00000000000000000000000000000".
Proof. vm_compute. repeat split; reflexivity. Qed.

Lemma MineBlock_swallows_failures_witness :
  snd (MineBlock (E := Sample.env_tip_write_fails) 2 []
         (mkWorld Sample.created [])) =
    mkWorld
      (mkBlockchain (tip Sample.created)
         (<["Caa00000000000000000000000000000" :=
              Sample.serialized
                (MineBlock_newBlock (E := Sample.env_tip_write_fails) 2 []
                   (mkWorld Sample.created []))]> (db Sample.created)))
      ([] ++ ["Error serializing genesis block"]).
Proof.
  destruct (MineBlock_swallows_failures (E := Sample.env_tip_write_fails) 2 []
              (mkWorld Sample.created [])) as (_ & _ & _ & _ & H).
  apply (H (Sample.serialized
              (MineBlock_newBlock (E := Sample.env_tip_write_fails) 2 []
                 (mkWorld Sample.created []))) "write failed").
  - reflexivity.
  - vm_compute. reflexivity.
  - vm_compute. reflexivity.
Defined.

(** C4 as stated fails on the code: over a store whose write of the entry
    "1" fails, the closure of [MineBlock] still returns nil, the call ends
    exactly as a successful one does, the block is committed, and the entry
    "1" and [bc.tip] stay behind; one printed line is all that is left of the
    failure. *)
Lemma MineBlock_swallows_failures_counterexample :
  put_error (Collaborators := Sample.env_tip_write_fails) "1"
    (Hash (MineBlock_newBlock (E := Sample.env_tip_write_fails) 2 []
             (mkWorld Sample.created []))) = Some "write failed" /\
  tx_err
    (MineBlock_update (E := Sample.env_tip_write_fails)
       (MineBlock_newBlock (E := Sample.env_tip_write_fails) 2 []
          (mkWorld Sample.created []))
       (db Sample.created)) = None /\
  fst (MineBlock (E := Sample.env_tip_write_fails) 2 []
         (mkWorld Sample.created [])) = Returned tt /\
  fst (MineBlock (E := Sample.env) 2 [] (mkWorld Sample.created [])) =
    Returned tt /\
  is_Some
    (db (bc (snd (MineBlock (E := Sample.env_tip_write_fails) 2 []
                    (mkWorld Sample.created []))))
       !! "Caa00000000000000000000000000000") /\
  db (bc (snd (MineBlock (E := Sample.env_tip_write_fails) 2 []
                 (mkWorld Sample.created [])))) !! "1" = None /\
  tip (bc (snd (MineBlock (E := Sample.env_tip_write_fails) 2 []
                  (mkWorld Sample.created [])))) =
    "Bab00000000000000000000000000000" /\
  stdout (snd (MineBlock (E := Sample.env_tip_write_fails) 2 []
                 (mkWorld Sample.created []))) =
    ["Error serializing genesis block"].
Proof. vm_compute. repeat split; try reflexivity. eexists; reflexivity. Qed.

(** ** The two keys of the tip pointer *)

Section TipKeys.
Context `{E : Collaborators}.

(** C1: the tip pointer is written under one key and read under another.
    [CreateBlockchain] stores the genesis tip under the key "l" and leaves
    the key "1" absent.  [MineBlock], in any world, builds its block on the
    value stored under "1" and, when nothing fails, stores that block and
    moves the entry "1" and [bc.tip] to its hash; [NewBlockchain], on any
    database, takes its tip from the value stored under "1".  So on the
    database that [CreateBlockchain] has made the value read is empty and is
    not the tip written: [MineBlock] stores a block whose predecessor hash is
    empty and [NewBlockchain] opens with an empty tip. *)
Theorem tip_written_under_l_read_under_1 (address : string) (now : Z)
    (chain : Blockchain) (out : list string) :
  CreateBlockchain false address now = (Returned chain, out) ->
  String.length (tip chain) = 32%nat ->
  db chain !! "l" = Some (tip chain) /\
  db chain !! "1" = None /\
  (forall w now' txs ser,
     SerializeBlock (NewBlock now' (Get (db (bc w)) "1") txs) = Some ser ->
     put_error (Hash (NewBlock now' (Get (db (bc w)) "1") txs)) ser = None ->
     put_error "1" (Hash (NewBlock now' (Get (db (bc w)) "1") txs)) = None ->
     MineBlock now' txs w =
       (Returned tt,
        mkWorld
          (mkBlockchain (Hash (NewBlock now' (Get (db (bc w)) "1") txs))
             (<["1" := Hash (NewBlock now' (Get (db (bc w)) "1") txs)]>
                (<[Hash (NewBlock now' (Get (db (bc w)) "1") txs) := ser]>
                   (db (bc w)))))
          (stdout w))) /\
  (forall b,
     NewBlockchain (Some b) = (Returned (mkBlockchain (Get b "1") b), [])) /\
  Get (db chain) "1" = "" /\
  Get (db chain) "1" <> tip chain /\
  (forall now' txs o ser,
     SerializeBlock (NewBlock now' "" txs) = Some ser ->
     put_error (Hash (NewBlock now' "" txs)) ser = None ->
     put_error "1" (Hash (NewBlock now' "" txs)) = None ->
     MineBlock now' txs (mkWorld chain o) =
       (Returned tt,
        mkWorld
          (mkBlockchain (Hash (NewBlock now' "" txs))
             (<["1" := Hash (NewBlock now' "" txs)]>
                (<[Hash (NewBlock now' "" txs) := ser]> (db chain))))
          o) /\
     PrevBlockHash (NewBlock now' "" txs) = "") /\
  NewBlockchain (Some (db chain)) = (Returned (mkBlockchain "" (db chain)), []).
Proof.
  intros Hc Hlen.
  destruct (fresh_ledger_keys _ _ _ _ Hc Hlen) as (Hkey & Habsent & _).
  destruct (length_32_not_key _ Hlen) as (_ & _ & Hnil).
  assert (Hget : Get (db chain) "1" = "") by (now apply Get_absent).
  split; [exact Hkey|]. split; [exact Habsent|].
  split.
  { intros w now' txs ser Hs H1 H2.
    exact (MineBlock_success_world now' txs w ser Hs H1 H2). }
  split; [intros b; reflexivity|].
  split; [exact Hget|].
  split.
  { rewrite Hget. intros Heq. apply Hnil. now rewrite <- Heq. }
  split.
  { intros now' txs o ser Hs H1 H2.
    split; [|apply NewBlock_PrevBlockHash].
    pose proof (MineBlock_success_world now' txs (mkWorld chain o) ser) as Hm.
    unfold MineBlock_newBlock in Hm. cbn [bc db stdout] in Hm.
    rewrite Hget in Hm. exact (Hm Hs H1 H2). }
  unfold NewBlockchain. now rewrite Hget.
Qed.

End TipKeys.

Lemma tip_written_under_l_read_under_1_witness :
  db Sample.created !! "l" = Some (tip Sample.created) /\
  (MineBlock (E := Sample.env) 2 [] (mkWorld Sample.created []) =
     (Returned tt,
      mkWorld
        (mkBlockchain (Hash (NewBlock (E := Sample.env) 2 "" []))
           (<["1" := Hash (NewBlock (E := Sample.env) 2 "" [])]>
              (<[Hash (NewBlock (E := Sample.env) 2 "" []) :=
                   Sample.serialized (NewBlock (E := Sample.env) 2 "" [])]>
                 (db Sample.created))))
        []) /\
   PrevBlockHash (NewBlock (E := Sample.env) 2 "" []) = "") /\
  Get (db (bc Sample.ledger_paid)) "1" = "Cab00000000000000000000000000000" /\
  MineBlock (E := Sample.env) 3 [Sample.bob_spends] Sample.ledger_paid =
    (Returned tt,
     mkWorld
       (mkBlockchain
          (Hash
             (NewBlock (E := Sample.env) 3
                (Get (db (bc Sample.ledger_paid)) "1") [Sample.bob_spends]))
          (<["1" :=
               Hash
                 (NewBlock (E := Sample.env) 3
                    (Get (db (bc Sample.ledger_paid)) "1")
                    [Sample.bob_spends])]>
             (<[Hash
                  (NewBlock (E := Sample.env) 3
                     (Get (db (bc Sample.ledger_paid)) "1")
                     [Sample.bob_spends]) :=
                  Sample.serialized
                    (NewBlock (E := Sample.env) 3
                       (Get (db (bc Sample.ledger_paid)) "1")
                       [Sample.bob_spends])]>
                (db (bc Sample.ledger_paid)))))
       (stdout Sample.ledger_paid)) /\
  NewBlockchain (Some (db (bc Sample.ledger_paid))) =
    (Returned
       (mkBlockchain (Get (db (bc Sample.ledger_paid)) "1")
          (db (bc Sample.ledger_paid))), []) /\
  NewBlockchain (Some (db Sample.created)) =
    (Returned (mkBlockchain "" (db Sample.created)), []).
Proof.
  destruct (tip_written_under_l_read_under_1 (E := Sample.env) "alice" 1
              Sample.created [])
    as (Hl & _ & Hmine & Hopen & _ & _ & Hfresh & Hreopen).
  - vm_compute. reflexivity.
  - reflexivity.
  - split; [exact Hl|].
    split.
    { apply (Hfresh 2 [] []
               (Sample.serialized (NewBlock (E := Sample.env) 2 "" []))).
      - reflexivity.
      - vm_compute. reflexivity.
      - vm_compute. reflexivity. }
    split; [vm_compute; reflexivity|].
    split.
    { apply (Hmine Sample.ledger_paid 3 [Sample.bob_spends]
               (Sample.serialized
                  (NewBlock (E := Sample.env) 3
                     (Get (db (bc Sample.ledger_paid)) "1")
                     [Sample.bob_spends]))).
      - reflexivity.
      - vm_compute. reflexivity.
      - vm_compute. reflexivity. }
    split; [apply Hopen|exact Hreopen].
Defined.

(** ** Stepping the iterator *)

Section IteratorFacts.
Context `{E : Collaborators}.

Lemma Next_decoded (i : BlockchainIterator) (w : World) (block : Block) :
  DeserializeBlock (Get (db (bc w)) (currentHash i)) = Some block ->
  Next i w = (Returned (block, mkIterator (PrevBlockHash block)), w).
Proof. intros H. unfold Next, bind, View. now rewrite H. Qed.

Lemma Next_undecoded (i : BlockchainIterator) (w : World) :
  DeserializeBlock (Get (db (bc w)) (currentHash i)) = None ->
  Next i w =
    (Panicked "invalid memory address or nil pointer dereference",
     mkWorld (bc w) (stdout w ++ ["Error deserializing block"])).
Proof. intros H. unfold Next, bind, View. now rewrite H. Qed.

(** [Next] never touches the blockchain. *)
Lemma Next_keeps_bc (i : BlockchainIterator) (w : World) :
  bc (snd (Next i w)) = bc w.
Proof.
  destruct (DeserializeBlock (Get (db (bc w)) (currentHash i))) as [b|] eqn:H.
  - now rewrite (Next_decoded _ _ _ H).
  - now rewrite (Next_undecoded _ _ H).
Qed.

(** [Next] looks at nothing but the blockchain. *)
Lemma Next_reads_bc (i : BlockchainIterator) (w1 w2 : World) :
  bc w1 = bc w2 -> fst (Next i w1) = fst (Next i w2).
Proof.
  intros Hbc.
  destruct (DeserializeBlock (Get (db (bc w1)) (currentHash i))) as [b|] eqn:H.
  - rewrite (Next_decoded _ _ _ H). rewrite Hbc in H.
    now rewrite (Next_decoded _ _ _ H).
  - rewrite (Next_undecoded _ _ H). rewrite Hbc in H.
    now rewrite (Next_undecoded _ _ H).
Qed.

(** C5 on the code: when the stored bytes for the current hash do not
    decode, [Next] does not end with an error value.  It prints one line,
    goes on with the nil block and stops in the nil pointer dereference of
    [block.PrevBlockHash]; the blockchain is left as it was. *)
Theorem Next_dereferences_nil_block (i : BlockchainIterator) (w : World) :
  DeserializeBlock (Get (db (bc w)) (currentHash i)) = None ->
  Next i w =
    (Panicked "invalid memory address or nil pointer dereference",
     mkWorld (bc w) (stdout w ++ ["Error deserializing block"])).
Proof.
  intros Hdec. unfold Next, bind, View, Printf, panic.
  rewrite Hdec. reflexivity.
Qed.

End IteratorFacts.

Lemma Next_dereferences_nil_block_witness :
  Next (E := Sample.env) (mkIterator "tip") (mkWorld Sample.corrupt []) =
    (Panicked "invalid memory address or nil pointer dereference",
     mkWorld Sample.corrupt ([] ++ ["Error deserializing block"])).
Proof.
  apply (Next_dereferences_nil_block (E := Sample.env) (mkIterator "tip")
           (mkWorld Sample.corrupt [])).
  vm_compute. reflexivity.
Defined.

(** ** Walking the chain after mining *)

Section Walk.
Context `{E : Collaborators}.

Lemma len_zero (s : bytes) : Z.eqb (len s) 0 = true <-> s = "".
Proof.
  unfold len. destruct s as [|c s]; cbn.
  - split; reflexivity.
  - split; [|discriminate]. intros H. apply Z.eqb_eq in H. lia.
Qed.

Lemma len_nonzero (s : bytes) : s <> "" -> Z.eqb (len s) 0 = false.
Proof.
  intros H. destruct (Z.eqb (len s) 0) eqn:Hz; [|reflexivity].
  apply len_zero in Hz. contradiction.
Qed.

Lemma chain_at_head (d : DB) (h : bytes) (bs : list Block) :
  chain_at d h bs -> exists b rest, bs = b :: rest /\ Hash b = h.
Proof. intros H. destruct H; eauto. Qed.

Lemma chain_at_linked (d : DB) (h : bytes) (bs : list Block) :
  chain_at d h bs -> linked bs.
Proof.
  induction 1 as [h ser b Hd Hdec H1 Hh Hp|h ser b rest Hd Hdec H1 Hh Hp Hc IH].
  - cbn. auto.
  - cbn. split; [|exact IH].
    destruct (chain_at_head _ _ _ Hc) as (b' & rest' & -> & Hb'). now rewrite Hb'.
Qed.

Lemma chain_at_keys (d : DB) (h : bytes) (bs : list Block) :
  chain_at d h bs -> Forall (fun b => is_Some (d !! Hash b) /\ Hash b <> "1") bs.
Proof.
  induction 1 as [h ser b Hd Hdec H1 Hh Hp|h ser b rest Hd Hdec H1 Hh Hp Hc IH].
  - constructor; [|constructor]. rewrite Hh. eauto.
  - constructor; [|exact IH]. rewrite Hh. eauto.
Qed.

(** Writes to other keys do not disturb a chain. *)
Lemma chain_at_frame (d d' : DB) (h : bytes) (bs : list Block) :
  chain_at d h bs ->
  (forall k, is_Some (d !! k) -> k <> "1" -> d' !! k = d !! k) ->
  chain_at d' h bs.
Proof.
  intros Hc Hframe.
  induction Hc as [h ser b Hd Hdec H1 Hh Hp|h ser b rest Hd Hdec H1 Hh Hp Hc IH].
  - apply (chain_last d' h ser b); auto. rewrite Hframe; eauto.
  - apply (chain_link d' h ser b rest); auto. rewrite Hframe; eauto.
Qed.

(** The traversal yields exactly the blocks of the chain. *)
Lemma walk_chain_at (w : World) (h : bytes) (bs : list Block) :
  chain_at (db (bc w)) h bs ->
  forall fuel seen, (length bs <= fuel)%nat ->
    walk fuel (mkIterator h) seen w = (Returned (seen ++ bs), w).
Proof.
  induction 1 as [h ser b Hd Hdec H1 Hh Hp|h ser b rest Hd Hdec H1 Hh Hp Hc IH];
    intros fuel seen Hfuel; cbn in Hfuel.
  - destruct fuel as [|fuel]; [lia|]. cbn. unfold bind.
    rewrite (Next_decoded (mkIterator h) w b)
      by (cbn; now rewrite (Get_lookup _ _ _ Hd)).
    cbn. rewrite Hp. reflexivity.
  - destruct fuel as [|fuel]; [lia|]. cbn. unfold bind.
    rewrite (Next_decoded (mkIterator h) w b)
      by (cbn; now rewrite (Get_lookup _ _ _ Hd)).
    cbn. rewrite (len_nonzero _ Hp).
    rewrite IH by lia. now rewrite <- app_assoc.
Qed.

Lemma after_mining_step (g : bytes) (k : nat) (w : World) (now : Z)
    (txs : list Transaction) :
  after_mining g k w -> mines now txs w ->
  after_mining g (S k) (snd (MineBlock now txs w)).
Proof.
  intros [Hg Hk] (ser & Hser & Hdec & Hp1 & Hp2 & Hlen & Hfresh).
  destruct (length_32_not_key _ Hlen) as (Hn1 & _ & Hnil).
  destruct (MineBlock_success now txs w ser Hser Hp1 Hp2 Hn1)
    as (w' & Hrun & Hprev & Hblk & Htip & Hmem & Hother).
  rewrite Hrun. cbn.
  set (nb := MineBlock_newBlock now txs w) in *.
  assert (Hkeep : forall key, is_Some (db (bc w) !! key) -> key <> "1" ->
                    db (bc w') !! key = db (bc w) !! key).
  { intros key [v Hv] Hk1. apply Hother; [|exact Hk1].
    intros ->. rewrite Hfresh in Hv. discriminate Hv. }
  assert (Hfresh_g : Hash nb <> g).
  { intros Heq. destruct Hg as [v Hv]. rewrite <- Heq, Hfresh in Hv.
    discriminate Hv. }
  split.
  - destruct Hg as [v Hv].
    destruct (decide (g = "1")) as [->|Hg1].
    + rewrite Htip. eauto.
    + rewrite Hkeep; eauto.
  - rewrite Hmem. split; [exact Htip|split; [exact Hlen|]].
    destruct k as [|k].
    + exists [nb]. split; [|split; [reflexivity|]].
      * apply (chain_last _ _ ser nb); auto.
        rewrite Hprev. now apply Get_absent.
      * constructor; [exact Hfresh_g|constructor].
    + destruct Hk as (H1 & Htl & bs & Hc & Hbs & Hall).
      exists (nb :: bs).
      split; [|split; [cbn; now rewrite Hbs|constructor; assumption]].
      assert (Hp : PrevBlockHash nb = tip (bc w)).
      { rewrite Hprev. now apply Get_lookup. }
      apply (chain_link _ _ ser nb bs); auto.
      * rewrite Hp. destruct (length_32_not_key _ Htl) as (_ & _ & Hne). exact Hne.
      * rewrite Hp. apply (chain_at_frame (db (bc w))); [exact Hc|exact Hkeep].
Qed.

Lemma after_mining_reached (g : bytes) (w0 : World) (k : nat) (w : World) :
  after_mining g O w0 -> mined_from w0 k w -> after_mining g k w.
Proof.
  intros H0 Hm. induction Hm as [|k w now txs Hm IH Hok]; [exact H0|].
  now apply after_mining_step.
Qed.

(** C3 on the code: on a ledger that [CreateBlockchain] has just made,
    after [k+1] calls of [MineBlock] that all go through, the traversal from
    the tip yields exactly [k+1] blocks, one fewer than the blocks stored:
    they are linked and end in a block with an empty predecessor hash, but
    that block is the first mined one.  The genesis block is still in the
    store and is never yielded. *)
Theorem genesis_unreachable_after_mining (address : string) (now : Z)
    (chain : Blockchain) (out : list string) (k : nat) (w : World) :
  CreateBlockchain false address now = (Returned chain, out) ->
  String.length (tip chain) = 32%nat ->
  mined_from (mkWorld chain out) (S k) w ->
  exists bs,
    (forall fuel, (S k <= fuel)%nat ->
       blocks_from_tip fuel w = (Returned bs, w)) /\
    length bs = S k /\
    linked bs /\
    Forall (fun b => Hash b <> tip chain) bs /\
    is_Some (db (bc w) !! tip chain).
Proof.
  intros Hc Hlen Hm.
  destruct (fresh_ledger_keys _ _ _ _ Hc Hlen) as (_ & H1 & Hg0).
  assert (H0 : after_mining (tip chain) O (mkWorld chain out)).
  { split; [exact Hg0|exact H1]. }
  destruct (after_mining_reached _ _ _ _ H0 Hm)
    as (Hg & _ & _ & bs & Hchain_at & Hbs & Hall).
  exists bs. repeat split; auto.
  - intros fuel Hfuel. unfold blocks_from_tip, bind, Iterator, get_tip, ret.
    cbn. apply (walk_chain_at w _ bs Hchain_at fuel []). lia.
  - now apply (chain_at_linked _ _ _ Hchain_at).
Qed.

End Walk.

Lemma genesis_unreachable_after_mining_witness :
  exists bs,
    (forall fuel, (2 <= fuel)%nat ->
       blocks_from_tip (E := Sample.env) fuel
         (snd (MineBlock (E := Sample.env) 3 []
                 (snd (MineBlock (E := Sample.env) 2 []
                         (mkWorld Sample.created []))))) =
         (Returned bs,
          snd (MineBlock (E := Sample.env) 3 []
                 (snd (MineBlock (E := Sample.env) 2 []
                         (mkWorld Sample.created [])))))) /\
    length bs = 2%nat /\
    linked bs /\
    Forall (fun b => Hash b <> tip Sample.created) bs /\
    is_Some
      (db (bc (snd (MineBlock (E := Sample.env) 3 []
                      (snd (MineBlock (E := Sample.env) 2 []
                              (mkWorld Sample.created []))))))
         !! tip Sample.created).
Proof.
  apply (genesis_unreachable_after_mining (E := Sample.env) "alice" 1
           Sample.created [] 1).
  - vm_compute. reflexivity.
  - reflexivity.
  - apply mined_more; [apply mined_more; [apply mined_none|]|].
    + eexists. repeat split; vm_compute; reflexivity.
    + eexists. repeat split; vm_compute; reflexivity.
Defined.

(** The smallest case: one block appended to a fresh ledger, and the walk
    from the tip ends after that one block. *)
Example walk_after_first_block :
  fst (blocks_from_tip (E := Sample.env) 5
         (snd (MineBlock (E := Sample.env) 2 [] (mkWorld Sample.created [])))) =
    Returned
      [MineBlock_newBlock (E := Sample.env) 2 [] (mkWorld Sample.created [])].
Proof. vm_compute. reflexivity. Qed.

(** ** The unspent-output scan *)

Section Scan.
Context `{E : Collaborators}.

Lemma bind_map_result {A B} (m : M A) (f : A -> B) (w : World) :
  (x <- m ;; ret (f x)) w = (map_result f (fst (m w)), snd (m w)).
Proof. unfold bind, ret. destruct (m w) as [[a|msg|c|] w']; reflexivity. Qed.

(** Blocks already seen ride along in front of what the walk will find. *)
Lemma walk_seen (fuel : nat) (bci : BlockchainIterator) (seen : list Block)
    (w : World) :
  walk fuel bci seen w =
    (map_result (app seen) (fst (walk fuel bci [] w)), snd (walk fuel bci [] w)).
Proof.
  revert bci seen w. induction fuel as [|fuel IH]; intros bci seen w; cbn.
  - reflexivity.
  - unfold bind, ret. destruct (Next bci w) as [[[b i]|msg|c|] w']; try reflexivity.
    cbn. destruct (Z.eqb (len (PrevBlockHash b)) 0); [reflexivity|].
    rewrite (IH i (seen ++ [b]) w'), (IH i [b] w').
    destruct (fst (walk fuel i [] w')); cbn; try reflexivity.
    now rewrite <- app_assoc.
Qed.

(** The loop of [FindUnspentTransactions] scans, block by block, exactly the
    blocks that the walk yields. *)
Lemma FindUnspentTransactions_loop_walk (fuel : nat) (address : string)
    (bci : BlockchainIterator) (st : list Transaction * gmap string (list Z))
    (w : World) :
  FindUnspentTransactions_loop fuel address bci st w =
    (map_result (fun bs => fst (fold_left (scan_block address) bs st))
       (fst (walk fuel bci [] w)),
     snd (walk fuel bci [] w)).
Proof.
  revert bci st w. induction fuel as [|fuel IH]; intros bci st w; cbn.
  - reflexivity.
  - unfold bind, ret. destruct (Next bci w) as [[[b i]|msg|c|] w']; try reflexivity.
    cbn. destruct (Z.eqb (len (PrevBlockHash b)) 0); [reflexivity|].
    rewrite IH, (walk_seen fuel i [b] w').
    destruct (fst (walk fuel i [] w')); reflexivity.
Qed.

Lemma FindUnspentTransactions_walk (fuel : nat) (address : string) (w : World) :
  FindUnspentTransactions fuel address w =
    (map_result (fun bs => fst (fold_left (scan_block address) bs ([], ∅)))
       (fst (blocks_from_tip fuel w)),
     snd (blocks_from_tip fuel w)).
Proof.
  unfold FindUnspentTransactions, blocks_from_tip, bind, Iterator, get_tip, ret.
  cbn. apply FindUnspentTransactions_loop_walk.
Qed.

(** The walk changes nothing in the blockchain and depends on nothing
    else. *)
Lemma walk_keeps_bc (fuel : nat) (bci : BlockchainIterator)
    (seen : list Block) (w : World) :
  bc (snd (walk fuel bci seen w)) = bc w.
Proof.
  revert bci seen w. induction fuel as [|fuel IH]; intros bci seen w; cbn.
  - reflexivity.
  - unfold bind, ret. pose proof (Next_keeps_bc bci w) as Hn.
    destruct (Next bci w) as [[[b i]|msg|c|] w']; cbn in *; try exact Hn.
    destruct (Z.eqb (len (PrevBlockHash b)) 0); [exact Hn|].
    now rewrite IH.
Qed.

Lemma walk_reads_bc (fuel : nat) (bci : BlockchainIterator)
    (seen : list Block) (w1 w2 : World) :
  bc w1 = bc w2 ->
  fst (walk fuel bci seen w1) = fst (walk fuel bci seen w2).
Proof.
  revert bci seen w1 w2.
  induction fuel as [|fuel IH]; intros bci seen w1 w2 Hbc; cbn.
  - reflexivity.
  - unfold bind, ret.
    pose proof (Next_reads_bc bci w1 w2 Hbc) as Hr.
    pose proof (Next_keeps_bc bci w1) as H1.
    pose proof (Next_keeps_bc bci w2) as H2.
    destruct (Next bci w1) as [r1 w1'], (Next bci w2) as [r2 w2'].
    cbn in *. subst r2.
    destruct r1 as [[b i]|msg|c|]; try reflexivity.
    cbn. destruct (Z.eqb (len (PrevBlockHash b)) 0); [reflexivity|].
    apply IH. congruence.
Qed.

Lemma blocks_from_tip_keeps_bc (fuel : nat) (w : World) :
  bc (snd (blocks_from_tip fuel w)) = bc w.
Proof.
  unfold blocks_from_tip, bind, Iterator, get_tip, ret. cbn.
  apply walk_keeps_bc.
Qed.

Lemma blocks_from_tip_reads_bc (fuel : nat) (w1 w2 : World) :
  bc w1 = bc w2 ->
  fst (blocks_from_tip fuel w1) = fst (blocks_from_tip fuel w2).
Proof.
  intros Hbc. unfold blocks_from_tip, bind, Iterator, get_tip, ret. cbn.
  rewrite Hbc. now apply walk_reads_bc.
Qed.

Lemma FindUnspentTransactions_keeps_bc (fuel : nat) (address : string)
    (w : World) :
  bc (snd (FindUnspentTransactions fuel address w)) = bc w.
Proof. rewrite FindUnspentTransactions_walk. apply blocks_from_tip_keeps_bc. Qed.

Lemma FindUnspentTransactions_reads_bc (fuel : nat) (address : string)
    (w1 w2 : World) :
  bc w1 = bc w2 ->
  fst (FindUnspentTransactions fuel address w1) =
  fst (FindUnspentTransactions fuel address w2).
Proof.
  intros Hbc. rewrite !FindUnspentTransactions_walk. cbn [fst].
  now rewrite (blocks_from_tip_reads_bc fuel w1 w2 Hbc).
Qed.

Lemma FindUTXO_unfold (fuel : nat) (address : string) (w : World) :
  FindUTXO fuel address w =
    (map_result (collect_outputs address)
       (fst (FindUnspentTransactions fuel address w)),
     snd (FindUnspentTransactions fuel address w)).
Proof. unfold FindUTXO. apply bind_map_result. Qed.

(** C8: [FindUnspentTransactions] and [FindUTXO] leave the blockchain, tip
    and store, exactly as they found it; their result is determined by the
    blockchain alone, whatever else the world holds; and a second call right
    after the first gives the same result. *)
Theorem FindUTXO_is_a_pure_read (fuel : nat) (address : string) (w : World)
    (printed : list string) :
  bc (snd (FindUnspentTransactions fuel address w)) = bc w /\
  bc (snd (FindUTXO fuel address w)) = bc w /\
  fst (FindUnspentTransactions fuel address (mkWorld (bc w) printed)) =
    fst (FindUnspentTransactions fuel address w) /\
  fst (FindUTXO fuel address (mkWorld (bc w) printed)) =
    fst (FindUTXO fuel address w) /\
  fst (FindUnspentTransactions fuel address
         (snd (FindUnspentTransactions fuel address w))) =
    fst (FindUnspentTransactions fuel address w) /\
  fst (FindUTXO fuel address (snd (FindUTXO fuel address w))) =
    fst (FindUTXO fuel address w).
Proof.
  repeat split.
  - apply FindUnspentTransactions_keeps_bc.
  - rewrite FindUTXO_unfold. apply FindUnspentTransactions_keeps_bc.
  - now apply FindUnspentTransactions_reads_bc.
  - rewrite !FindUTXO_unfold. cbn [fst].
    now rewrite (FindUnspentTransactions_reads_bc fuel address
                   (mkWorld (bc w) printed) w).
  - apply FindUnspentTransactions_reads_bc.
    apply FindUnspentTransactions_keeps_bc.
  - rewrite !FindUTXO_unfold. cbn [fst snd].
    rewrite (FindUnspentTransactions_reads_bc fuel address
               (snd (FindUnspentTransactions fuel address w)) w); [reflexivity|].
    apply FindUnspentTransactions_keeps_bc.
Qed.

Lemma scan_outputs_repeat (address : string)
    (spentTXOs : gmap string (list Z)) (tx : Transaction) (txID : string)
    (outs : list TXOutput) :
  forall (outIdx : Z) (unspentTXs : list Transaction),
    scan_outputs address spentTXOs tx txID outIdx outs unspentTXs =
      unspentTXs ++
      repeat tx
        (length (unspent_unlockable address spentTXOs txID outIdx outs)).
Proof.
  induction outs as [|out rest IH]; intros outIdx unspentTXs; cbn.
  - now rewrite app_nil_r.
  - rewrite IH.
    destruct (is_spent spentTXOs txID outIdx); cbn; [reflexivity|].
    destruct (CanBeUnlockedWith out address); cbn; [|reflexivity].
    now rewrite <- app_assoc.
Qed.

(** The list of unspent transactions only ever grows at its end, and the
    spent markings do not depend on it. *)
Lemma scan_txs_accumulate (address : string) (txs : list Transaction) :
  forall (acc : list Transaction) (sp : gmap string (list Z)),
    fold_left (scan_tx address) txs (acc, sp) =
      (acc ++ fst (fold_left (scan_tx address) txs ([], sp)),
       snd (fold_left (scan_tx address) txs ([], sp))).
Proof.
  induction txs as [|tx txs IH]; intros acc sp; cbn.
  - now rewrite app_nil_r.
  - unfold scan_tx at 2 4 6. cbn [fst snd].
    rewrite !scan_outputs_repeat. cbn [app].
    rewrite IH.
    rewrite (IH (repeat tx _)). cbn [fst snd].
    now rewrite <- app_assoc.
Qed.

Lemma scan_blocks_flat (address : string) (bs : list Block) :
  forall st,
    fold_left (scan_block address) bs st =
    fold_left (scan_tx address) (flat_map Transactions bs) st.
Proof.
  induction bs as [|b bs IH]; intros st; cbn; [reflexivity|].
  rewrite fold_left_app. apply IH.
Qed.

(** Where a transaction stands in the scan, it is appended once for each of
    its outputs found unspent and unlockable. *)
Lemma scan_txs_split (address : string) (pre post : list Transaction)
    (tx : Transaction) :
  exists l1 l2,
    fst (fold_left (scan_tx address) (pre ++ tx :: post) ([], ∅)) =
      l1 ++ repeat tx (unspent_count address pre tx) ++ l2.
Proof.
  rewrite fold_left_app. cbn [fold_left].
  destruct (fold_left (scan_tx address) pre ([], ∅)) as [l1 sp] eqn:Hpre.
  unfold scan_tx at 2. cbn [fst snd].
  rewrite scan_outputs_repeat, scan_txs_accumulate. cbn [fst].
  exists l1. eexists.
  unfold unspent_count. rewrite Hpre. cbn [snd].
  now rewrite <- app_assoc.
Qed.

Lemma collect_inner (address : string) (outs : list TXOutput) :
  forall UTXOs,
    fold_left
      (fun UTXOs out =>
         if CanBeUnlockedWith out address then UTXOs ++ [out] else UTXOs)
      outs UTXOs =
    UTXOs ++ List.filter (fun out => CanBeUnlockedWith out address) outs.
Proof.
  induction outs as [|out rest IH]; intros UTXOs; cbn.
  - now rewrite app_nil_r.
  - rewrite IH. destruct (CanBeUnlockedWith out address); [|reflexivity].
    now rewrite <- app_assoc.
Qed.

Lemma collect_outer (address : string) (txs : list Transaction) :
  forall UTXOs,
    fold_left
      (fun UTXOs tx =>
         fold_left
           (fun UTXOs out =>
              if CanBeUnlockedWith out address then UTXOs ++ [out] else UTXOs)
           (Vout tx) UTXOs)
      txs UTXOs =
    UTXOs ++ flat_map (unlockable address) txs.
Proof.
  induction txs as [|tx txs IH]; intros UTXOs; cbn.
  - now rewrite app_nil_r.
  - rewrite IH, collect_inner. now rewrite <- app_assoc.
Qed.

(** [FindUTXO] returns, for each entry of the list of unspent transactions
    in turn, all the outputs of that entry which the address can unlock. *)
Lemma collect_outputs_flat_map (address : string) (txs : list Transaction) :
  collect_outputs address txs = flat_map (unlockable address) txs.
Proof. unfold collect_outputs. now rewrite collect_outer. Qed.

Lemma flat_map_repeat {A B} (f : A -> list B) (x : A) (n : nat) :
  flat_map f (repeat x n) = concat (repeat (f x) n).
Proof. induction n as [|n IH]; cbn; [reflexivity|now rewrite IH]. Qed.

Lemma count_occ_concat_repeat (l : list TXOutput) (out : TXOutput) (n : nat) :
  In out l -> (n <= count_occ TXOutput_eq_dec (concat (repeat l n)) out)%nat.
Proof.
  intros Hin. induction n as [|n IH]; cbn; [lia|].
  rewrite count_occ_app.
  apply (count_occ_In TXOutput_eq_dec) in Hin. lia.
Qed.

(** C10: when the walk from the tip meets a transaction that has two or more
    outputs which the scan finds unspent and unlockable by the address,
    [FindUnspentTransactions] appends that transaction once per such output,
    and [FindUTXO] then lists all outputs of the transaction that the address
    can unlock once per copy, so each of them appears at least twice in its
    result. *)
Theorem one_copy_per_unspent_output (fuel : nat) (address : string)
    (w : World) (bs : list Block) (pre post : list Transaction)
    (tx : Transaction) :
  fst (blocks_from_tip fuel w) = Returned bs ->
  flat_map Transactions bs = pre ++ tx :: post ->
  (2 <= unspent_count address pre tx)%nat ->
  (exists l1 l2,
     fst (FindUnspentTransactions fuel address w) =
       Returned (l1 ++ repeat tx (unspent_count address pre tx) ++ l2)) /\
  (exists m1 m2,
     fst (FindUTXO fuel address w) =
       Returned
         (m1 ++
          concat (repeat (unlockable address tx) (unspent_count address pre tx))
          ++ m2)) /\
  (exists UTXOs,
     fst (FindUTXO fuel address w) = Returned UTXOs /\
     forall out, In out (unlockable address tx) ->
       (2 <= count_occ TXOutput_eq_dec UTXOs out)%nat).
Proof.
  intros Hwalk Hflat Hn.
  destruct (scan_txs_split address pre post tx) as (l1 & l2 & Hscan).
  assert (Hfut : fst (FindUnspentTransactions fuel address w) =
                 Returned (l1 ++ repeat tx (unspent_count address pre tx) ++ l2)).
  { rewrite FindUnspentTransactions_walk. cbn [fst]. rewrite Hwalk. cbn.
    now rewrite scan_blocks_flat, Hflat, Hscan. }
  assert (Hutxo : fst (FindUTXO fuel address w) =
                  Returned
                    (flat_map (unlockable address) l1 ++
                     concat (repeat (unlockable address tx)
                               (unspent_count address pre tx)) ++
                     flat_map (unlockable address) l2)).
  { rewrite FindUTXO_unfold. cbn [fst]. rewrite Hfut. cbn.
    now rewrite collect_outputs_flat_map, !flat_map_app, flat_map_repeat. }
  split; [eauto|split; [eauto|]].
  eexists. split; [exact Hutxo|].
  intros out Hin. rewrite !count_occ_app.
  pose proof (count_occ_concat_repeat _ out
                (unspent_count address pre tx) Hin). lia.
Qed.

End Scan.

Lemma one_copy_per_unspent_output_witness :
  (exists l1 l2,
     fst (FindUnspentTransactions (E := Sample.env) 5 "bob" Sample.ledger_paid) =
       Returned (l1 ++ repeat Sample.pay_bob 2 ++ l2)) /\
  (exists m1 m2,
     fst (FindUTXO (E := Sample.env) 5 "bob" Sample.ledger_paid) =
       Returned
         (m1 ++
          concat (repeat [mkTXOutput 5 "bob"; mkTXOutput 7 "bob"] 2) ++ m2)) /\
  (exists UTXOs,
     fst (FindUTXO (E := Sample.env) 5 "bob" Sample.ledger_paid) = Returned UTXOs /\
     forall out, In out [mkTXOutput 5 "bob"; mkTXOutput 7 "bob"] ->
       (2 <= count_occ TXOutput_eq_dec UTXOs out)%nat).
Proof.
  apply (one_copy_per_unspent_output (E := Sample.env) 5 "bob" Sample.ledger_paid
           [MineBlock_newBlock (E := Sample.env) 2 [Sample.pay_bob]
              (mkWorld Sample.created [])]
           [] [] Sample.pay_bob).
  - vm_compute. reflexivity.
  - vm_compute. reflexivity.
  - vm_compute. lia.
Defined.

(** The same ledger, evaluated: the one payment comes back twice and its two
    outputs four times. *)
Example FindUTXO_lists_outputs_twice :
  fst (FindUnspentTransactions (E := Sample.env) 5 "bob" Sample.ledger_paid) =
    Returned [Sample.pay_bob; Sample.pay_bob] /\
  fst (FindUTXO (E := Sample.env) 5 "bob" Sample.ledger_paid) =
    Returned
      [mkTXOutput 5 "bob"; mkTXOutput 7 "bob";
       mkTXOutput 5 "bob"; mkTXOutput 7 "bob"].
Proof. vm_compute. split; reflexivity. Qed.

(** ** The miner and the mempool *)

Section MinerFacts.
Context `{E : Collaborators}.

Lemma collect_verified_from (ids : list string)
    (pool : gmap string Transaction) :
  forall acc tx,
    In tx
      (fold_left
         (fun txs id =>
            let tx := default zero_Transaction (pool !! id) in
            if VerifyTransaction tx then txs ++ [tx] else txs)
         ids acc) ->
    In tx acc \/
    exists id,
      In id ids /\ default zero_Transaction (pool !! id) = tx /\
      VerifyTransaction tx = true.
Proof.
  induction ids as [|id ids IH]; intros acc tx Hin; cbn in Hin.
  - now left.
  - apply IH in Hin. destruct Hin as [Hin|(id' & Hid & Hget & Hv)].
    + destruct (VerifyTransaction (default zero_Transaction (pool !! id)))
        eqn:Hv; [|now left].
      apply in_app_or in Hin. destruct Hin as [Hin|[<-|[]]]; [now left|].
      right. exists id. cbn. auto.
    + right. exists id'. cbn. auto.
Qed.

(** Every transaction collected for the block sits in the mempool under the
    key it was read from and passed verification. *)
Lemma collect_verified_sound (ids : list string)
    (pool : gmap string Transaction) (tx : Transaction) :
  enumerates ids pool -> In tx (collect_verified ids pool) ->
  exists id, pool !! id = Some tx /\ VerifyTransaction tx = true.
Proof.
  intros Henum Hin. apply collect_verified_from in Hin.
  destruct Hin as [[]|(id & Hid & Hget & Hv)].
  apply Henum in Hid. destruct Hid as [tx' Htx'].
  rewrite Htx' in Hget. cbn in Hget. subst tx'. eauto.
Qed.

Lemma remove_mined_gone (txs : list Transaction) :
  forall (pool : gmap string Transaction) (tx : Transaction),
    In tx txs -> remove_mined txs pool !! EncodeToString (ID tx) = None.
Proof.
  unfold remove_mined.
  induction txs as [|t txs IH]; intros pool tx Hin; [destruct Hin|].
  cbn. destruct (in_dec string_dec (EncodeToString (ID tx))
                   (map (fun t => EncodeToString (ID t)) txs)) as [Hl|Hl].
  - apply in_map_iff in Hl. destruct Hl as (t' & Heq & Hin').
    rewrite <- Heq. now apply IH.
  - destruct Hin as [->|Hin].
    + clear IH. revert pool.
      induction txs as [|t' txs IH]; intros pool; cbn.
      * apply lookup_delete_eq.
      * cbn in Hl. rewrite delete_delete. apply IH. tauto.
    + exfalso. apply Hl. apply in_map_iff. eauto.
Qed.

Lemma remove_mined_kept (txs : list Transaction) :
  forall (pool : gmap string Transaction) (k : string),
    (forall tx, In tx txs -> EncodeToString (ID tx) <> k) ->
    remove_mined txs pool !! k = pool !! k.
Proof.
  unfold remove_mined.
  induction txs as [|t txs IH]; intros pool k Hk; cbn; [reflexivity|].
  rewrite IH by (intros tx Hin; apply Hk; now right).
  apply lookup_delete_ne. apply Hk. now left.
Qed.

(** C6, for a mempool keyed by transaction identity: after [mineTxs] no
    transaction of the new block has an entry in the mempool; every
    transaction of the block, the coinbase that [mineTxs] itself made apart,
    was in the mempool before; and a mempool transaction that failed
    verification is still there, provided its identity is not that of the
    coinbase. *)
Theorem mineTxs_clears_mined_only (ids : list string) (now : Z) (s : Server) :
  keyed_by_id (memPool s) ->
  enumerates ids (memPool s) ->
  Transactions (newBlock (mineTxs ids now s)) = included (mineTxs ids now s) /\
  (forall tx, In tx (Transactions (newBlock (mineTxs ids now s))) ->
     memPool (server_after (mineTxs ids now s)) !! EncodeToString (ID tx) =
       None) /\
  (forall tx, In tx (Transactions (newBlock (mineTxs ids now s))) ->
     tx = miner_coinbase s \/
     memPool s !! EncodeToString (ID tx) = Some tx) /\
  (forall tx,
     memPool s !! EncodeToString (ID tx) = Some tx ->
     VerifyTransaction tx = false ->
     EncodeToString (ID tx) <> EncodeToString (ID (miner_coinbase s)) ->
     memPool (server_after (mineTxs ids now s)) !! EncodeToString (ID tx) =
       Some tx).
Proof.
  intros Hkeyed Henum. unfold mineTxs, gcd_MineBlock. cbn.
  fold (miner_coinbase s). rewrite NewBlock_Transactions.
  split; [reflexivity|split; [|split]].
  - intros tx Hin. now apply remove_mined_gone.
  - intros tx Hin. apply in_app_or in Hin.
    destruct Hin as [Hin|[<-|[]]]; [right|now left].
    destruct (collect_verified_sound _ _ _ Henum Hin) as (id & Hid & _).
    now rewrite <- (Hkeyed _ _ Hid).
  - intros tx Hpool Hfail Hcb.
    rewrite remove_mined_kept; [exact Hpool|].
    intros tx' Hin Heq. apply in_app_or in Hin.
    destruct Hin as [Hin|[<-|[]]].
    + destruct (collect_verified_sound _ _ _ Henum Hin) as (id & Hid & Hv).
      rewrite (Hkeyed _ _ Hid), Heq, Hpool in Hid.
      injection Hid as ->. rewrite Hv in Hfail. discriminate Hfail.
    + apply Hcb. now rewrite Heq.
Qed.

End MinerFacts.

Lemma mineTxs_clears_mined_only_witness :
  Transactions
    (newBlock (mineTxs (E := Sample.env) ["7432"; "7433"] 4 Sample.server)) =
    included (mineTxs (E := Sample.env) ["7432"; "7433"] 4 Sample.server) /\
  (forall tx,
     In tx
       (Transactions
          (newBlock
             (mineTxs (E := Sample.env) ["7432"; "7433"] 4 Sample.server))) ->
     memPool
       (server_after
          (mineTxs (E := Sample.env) ["7432"; "7433"] 4 Sample.server))
       !! EncodeToString (ID tx) = None) /\
  (forall tx,
     In tx
       (Transactions
          (newBlock
             (mineTxs (E := Sample.env) ["7432"; "7433"] 4 Sample.server))) ->
     tx = miner_coinbase (E := Sample.env) Sample.server \/
     memPool Sample.server !! EncodeToString (ID tx) = Some tx) /\
  (forall tx,
     memPool Sample.server !! EncodeToString (ID tx) = Some tx ->
     VerifyTransaction (Collaborators := Sample.env) tx = false ->
     EncodeToString (ID tx) <>
       EncodeToString (ID (miner_coinbase (E := Sample.env) Sample.server)) ->
     memPool
       (server_after
          (mineTxs (E := Sample.env) ["7432"; "7433"] 4 Sample.server))
       !! EncodeToString (ID tx) = Some tx).
Proof.
  apply (mineTxs_clears_mined_only (E := Sample.env) ["7432"; "7433"] 4
           Sample.server).
  - intros k tx Hk. unfold Sample.server in Hk. cbn in Hk.
    apply lookup_insert_Some in Hk. destruct Hk as [[<- <-]|[_ Hk]].
    + reflexivity.
    + apply lookup_insert_Some in Hk. destruct Hk as [[<- <-]|[_ Hk]].
      * reflexivity.
      * rewrite lookup_empty in Hk. discriminate Hk.
  - intros k. unfold Sample.server. cbn. split.
    + intros [<-|[<-|[]]]; vm_compute; eauto.
    + intros [tx Hk].
      apply lookup_insert_Some in Hk. destruct Hk as [[<- _]|[_ Hk]].
      * now left.
      * apply lookup_insert_Some in Hk. destruct Hk as [[<- _]|[_ Hk]].
        -- right. now left.
        -- rewrite lookup_empty in Hk. discriminate Hk.
Defined.

(** ** Choosing outputs to spend *)

Section Spend.
Context `{E : Collaborators}.

Lemma take_until_reached (amount : Z) (cands : list (string * Z * TXOutput))
    (st : Z * gmap string (list Z)) :
  Z.ltb (fst st) amount = false -> take_until amount cands st = st.
Proof.
  intros H. destruct cands as [|[[txID i] out] rest]; cbn; [reflexivity|].
  now rewrite H.
Qed.

Lemma spend_outputs_take_until (address : string) (amount : Z)
    (txID : string) (outs : list TXOutput) :
  forall (outIdx : Z) (st : Z * gmap string (list Z))
         (more : list (string * Z * TXOutput)),
    take_until amount (indexed_unlockable address txID outIdx outs ++ more) st =
      if snd (spend_outputs address amount txID outIdx outs st)
      then fst (spend_outputs address amount txID outIdx outs st)
      else take_until amount more
             (fst (spend_outputs address amount txID outIdx outs st)).
Proof.
  induction outs as [|out rest IH]; intros outIdx st more; cbn; [reflexivity|].
  destruct (CanBeUnlockedWith out address); cbn.
  - destruct (Z.ltb (fst st) amount) eqn:Hlt.
    + destruct (Z.geb (int_add (fst st) (Value out)) amount) eqn:Hge.
      * cbn. apply take_until_reached. cbn.
        rewrite Z.geb_leb in Hge. apply Z.leb_le in Hge.
        apply Z.ltb_ge. exact Hge.
      * apply IH.
    + rewrite <- IH. rewrite !take_until_reached; auto.
  - apply IH.
Qed.

(** The loop labelled [Work] takes the candidates in order until the running
    total, wrapped at 64 bits, has reached the amount or none is left; what
    it returns may thus be less than the amount. *)
Lemma spend_txs_take_until (address : string) (amount : Z)
    (txs : list Transaction) :
  forall st,
    spend_txs address amount txs st =
    take_until amount (candidates address txs) st.
Proof.
  induction txs as [|tx txs IH]; intros st; cbn; [reflexivity|].
  rewrite spend_outputs_take_until.
  destruct (snd (spend_outputs _ _ _ _ _ _)); [reflexivity|apply IH].
Qed.

(** [FindSpendableOutputs] applies that selection to the list that
    [FindUnspentTransactions] returns, repeated entries and already spent
    outputs of the listed transactions included. *)
Lemma FindSpendableOutputs_take_until (fuel : nat) (address : string)
    (amount : Z) (w : World) :
  FindSpendableOutputs fuel address amount w =
    (map_result
       (fun txs => take_until amount (candidates address txs) (0, ∅))
       (fst (FindUnspentTransactions fuel address w)),
     snd (FindUnspentTransactions fuel address w)).
Proof.
  unfold FindSpendableOutputs. rewrite bind_map_result.
  destruct (fst (FindUnspentTransactions fuel address w)); cbn; try reflexivity.
  now rewrite spend_txs_take_until.
Qed.

End Spend.

(** C9 on the code: in the sample ledger [pay_bob] pays 5 and 7 to "bob"
    and [bob_spends], mined after it, spends the output of 5.  Asked for 5
    on behalf of "bob", [FindSpendableOutputs] returns 5 and selects output
    0 of [pay_bob], the output that is already spent, and not the unspent
    output 1. *)
Theorem FindSpendableOutputs_takes_spent_output :
  map Transactions
      (match fst (blocks_from_tip (E := Sample.env) 5 Sample.ledger_spent) with
       | Returned bs => bs
       | _ => []
       end) = [[Sample.bob_spends]; [Sample.pay_bob]] /\
  Vin Sample.bob_spends = [mkTXInput (ID Sample.pay_bob) 0 "bob"] /\
  EncodeToString (ID Sample.pay_bob) = "7431" /\
  match fst (FindSpendableOutputs (E := Sample.env) 5 "bob" 5 Sample.ledger_spent) with
  | Returned (accumulated, unspentOutputs) =>
      accumulated = 5 /\ map_to_list unspentOutputs = [("7431", [0])]
  | _ => False
  end.
Proof.
  split; [vm_compute; reflexivity|].
  split; [reflexivity|].
  split; [reflexivity|].
  vm_compute. split; reflexivity.
Qed.

(** On the ledger in which both outputs are still unspent, a request for 20
    is answered with 24, each of the two outputs counted twice, although
    "bob" holds 12. *)
Example FindSpendableOutputs_counts_twice :
  match fst (FindSpendableOutputs (E := Sample.env) 5 "bob" 20 Sample.ledger_paid) with
  | Returned (accumulated, unspentOutputs) =>
      accumulated = 24 /\ map_to_list unspentOutputs = [("7431", [0; 1; 0; 1])]
  | _ => False
  end.
Proof. vm_compute. split; reflexivity. Qed.

(** * Further properties *)

(** ** Hex keys *)

Lemma DecodeString_byte (v : ascii) :
  ascii_of_N
    (16 * hex_value (hex_digit (N.shiftr (N_of_ascii v) 4)) +
     hex_value (hex_digit (N.land (N_of_ascii v) 15)))%N = v.
Proof.
  destruct v as [b0 b1 b2 b3 b4 b5 b6 b7].
  destruct b0, b1, b2, b3, b4, b5, b6, b7; vm_compute; reflexivity.
Qed.

Lemma DecodeString_EncodeToString (src : bytes) :
  DecodeString (EncodeToString src) = src.
Proof.
  induction src as [|v rest IH]; [reflexivity|].
  cbn [EncodeToString DecodeString]. now rewrite DecodeString_byte, IH.
Qed.

Lemma EncodeToString_inj (a b : bytes) :
  EncodeToString a = EncodeToString b -> a = b.
Proof.
  intros H. rewrite <- (DecodeString_EncodeToString a), H.
  apply DecodeString_EncodeToString.
Qed.

Lemma EncodeToString_eqb (a b : bytes) :
  String.eqb (EncodeToString a) (EncodeToString b) = String.eqb a b.
Proof.
  destruct (String.eqb_spec a b) as [->|Hne].
  - apply String.eqb_refl.
  - apply String.eqb_neq. intros H. apply Hne. now apply EncodeToString_inj.
Qed.

(** ** Which transactions and outputs the scan lists *)

Section Listing.
Context `{E : Collaborators}.

Lemma is_spent_empty (txID : string) (idx : Z) : is_spent ∅ txID idx = false.
Proof. unfold is_spent. now rewrite lookup_empty. Qed.

Lemma is_spent_map_append (sp : gmap string (list Z)) (k k' : string)
    (v idx : Z) :
  is_spent (map_append sp k v) k' idx =
    is_spent sp k' idx || (String.eqb k k' && Z.eqb v idx).
Proof.
  unfold is_spent, map_append.
  destruct (String.eqb_spec k k') as [->|Hne].
  - rewrite lookup_insert_eq, existsb_app. cbn.
    destruct (sp !! k') as [l|]; cbn; now rewrite ?orb_false_r.
  - rewrite lookup_insert_ne by exact Hne. cbn. now rewrite orb_false_r.
Qed.

Lemma is_spent_mark_inputs (address : string) (tx : Transaction) (id : bytes)
    (idx : Z) (sp : gmap string (list Z)) :
  is_spent (mark_inputs address tx sp) (EncodeToString id) idx =
    is_spent sp (EncodeToString id) idx || spends address id idx tx.
Proof.
  unfold mark_inputs, spends.
  destruct (IsCoinbase tx); cbn; [now rewrite orb_false_r|].
  generalize (Vin tx) as ins. intros ins. revert sp.
  induction ins as [|i ins IH]; intros sp; cbn; [now rewrite orb_false_r|].
  rewrite IH. destruct (CanUnlockOutputWith i address); cbn; [|reflexivity].
  rewrite is_spent_map_append, EncodeToString_eqb.
  now rewrite orb_assoc.
Qed.

(** After a run of transactions has been scanned, an output is marked spent
    exactly when one of them spends it. *)
Lemma is_spent_scan (address : string) (id : bytes) (idx : Z)
    (txs : list Transaction) :
  forall acc sp,
    is_spent (snd (fold_left (scan_tx address) txs (acc, sp)))
      (EncodeToString id) idx =
    is_spent sp (EncodeToString id) idx || existsb (spends address id idx) txs.
Proof.
  induction txs as [|tx txs IH]; intros acc sp; cbn; [now rewrite orb_false_r|].
  unfold scan_tx at 2. cbn [fst snd].
  rewrite IH, is_spent_mark_inputs. now rewrite orb_assoc.
Qed.

Lemma unspent_unlockable_nonempty (address : string)
    (sp : gmap string (list Z)) (txID : string) (outs : list TXOutput) :
  forall k : nat,
    (1 <= length (unspent_unlockable address sp txID (Z.of_nat k) outs))%nat <->
    exists i out,
      outs !! i = Some out /\
      is_spent sp txID (Z.of_nat (k + i)) = false /\
      CanBeUnlockedWith out address = true.
Proof.
  induction outs as [|o outs IH]; intros k; cbn.
  - split; [lia|]. intros (i & out & Hi & _). destruct i; discriminate Hi.
  - replace (Z.of_nat k + 1) with (Z.of_nat (S k)) by lia.
    rewrite length_app. split.
    + intros Hlen.
      destruct (is_spent sp txID (Z.of_nat k)) eqn:Hs;
        [|destruct (CanBeUnlockedWith o address) eqn:Hc].
      * cbn in Hlen. apply IH in Hlen. destruct Hlen as (i & out & Hi & Hsp & Hu).
        exists (S i), out. replace (k + S i)%nat with (S k + i)%nat by lia. auto.
      * exists O, o. rewrite Nat.add_0_r. auto.
      * cbn in Hlen. apply IH in Hlen. destruct Hlen as (i & out & Hi & Hsp & Hu).
        exists (S i), out. replace (k + S i)%nat with (S k + i)%nat by lia. auto.
    + intros (i & out & Hi & Hsp & Hu). destruct i as [|i].
      * cbn in Hi. injection Hi as ->. rewrite Nat.add_0_r in Hsp.
        rewrite Hsp, Hu. cbn. lia.
      * cbn in Hi. replace (k + S i)%nat with (S k + i)%nat in Hsp by lia.
        assert (1 <= length (unspent_unlockable address sp txID
                               (Z.of_nat (S k)) outs))%nat as Hn
          by (apply IH; eauto).
        lia.
Qed.

Lemma scan_txs_snoc (address : string) (txs : list Transaction)
    (t : Transaction) :
  fst (fold_left (scan_tx address) (txs ++ [t]) ([], ∅)) =
    fst (fold_left (scan_tx address) txs ([], ∅)) ++
    repeat t (unspent_count address txs t).
Proof.
  rewrite fold_left_app. cbn [fold_left]. unfold scan_tx at 1. cbn [fst snd].
  now rewrite scan_outputs_repeat.
Qed.

Lemma scan_txs_member (address : string) (txs : list Transaction)
    (tx : Transaction) :
  In tx (fst (fold_left (scan_tx address) txs ([], ∅))) <->
  exists pre post,
    txs = pre ++ tx :: post /\ (1 <= unspent_count address pre tx)%nat.
Proof.
  induction txs as [|t txs IH] using rev_ind.
  - cbn. split; [intros []|].
    intros (pre & post & Heq & _). destruct pre; discriminate Heq.
  - rewrite scan_txs_snoc, in_app_iff. split.
    + intros [Hin|Hin].
      * apply IH in Hin. destruct Hin as (pre & post & -> & Hn).
        exists pre, (post ++ [t]). split; [|exact Hn].
        now rewrite <- app_assoc.
      * assert (tx = t) as -> by (eapply repeat_spec; exact Hin).
        exists txs, []. split; [reflexivity|].
        destruct (unspent_count address txs t); [destruct Hin|lia].
    + intros (pre & post & Heq & Hn).
      destruct post as [|p post _] using rev_ind.
      * apply app_inj_tail in Heq. destruct Heq as [-> ->].
        right. destruct (unspent_count address pre tx) eqn:Hc; [lia|].
        cbn. now left.
      * left. apply IH. exists pre, post. split; [|exact Hn].
        change (tx :: post ++ [p]) with ((tx :: post) ++ [p]) in Heq.
        rewrite app_assoc in Heq. apply app_inj_tail in Heq. now destruct Heq.
Qed.

(** X1: the listing of [FindUnspentTransactions] in terms of the chain.  When
    the walk from the tip yields the blocks [bs], a transaction is in the
    result exactly when it stands in one of those blocks and has an output
    that the address can unlock and that no transaction scanned before it
    (in a block nearer the tip, or earlier in its own block) spends with an
    input the address can unlock. *)
Theorem FindUnspentTransactions_lists (fuel : nat) (address : string)
    (w : World) (bs : list Block) :
  fst (blocks_from_tip fuel w) = Returned bs ->
  exists unspentTXs,
    fst (FindUnspentTransactions fuel address w) = Returned unspentTXs /\
    forall tx,
      In tx unspentTXs <->
      exists pre post i out,
        flat_map Transactions bs = pre ++ tx :: post /\
        Vout tx !! i = Some out /\
        CanBeUnlockedWith out address = true /\
        existsb (spends address (ID tx) (Z.of_nat i)) pre = false.
Proof.
  intros Hwalk. eexists. split.
  - rewrite FindUnspentTransactions_walk. cbn [fst]. rewrite Hwalk. cbn.
    rewrite scan_blocks_flat. reflexivity.
  - intros tx. rewrite scan_txs_member. split.
    + intros (pre & post & Heq & Hn). unfold unspent_count in Hn.
      apply (unspent_unlockable_nonempty _ _ _ _ O) in Hn.
      destruct Hn as (i & out & Hi & Hsp & Hu). cbn in Hsp.
      rewrite is_spent_scan, is_spent_empty in Hsp. cbn in Hsp.
      exists pre, post, i, out. auto.
    + intros (pre & post & i & out & Heq & Hi & Hu & Hsp).
      exists pre, post. split; [exact Heq|]. unfold unspent_count.
      apply (unspent_unlockable_nonempty _ _ _ _ O).
      exists i, out. cbn. rewrite is_spent_scan, is_spent_empty. cbn. auto.
Qed.

(** X2: the listing of [FindUTXO].  An output is in the result exactly when it
    is an output, unlockable by the address, of a transaction that
    [FindUnspentTransactions] lists; whether that output itself is spent
    plays no part. *)
Theorem FindUTXO_lists (fuel : nat) (address : string) (w : World)
    (unspentTXs : list Transaction) :
  fst (FindUnspentTransactions fuel address w) = Returned unspentTXs ->
  exists UTXOs,
    fst (FindUTXO fuel address w) = Returned UTXOs /\
    forall out,
      In out UTXOs <->
      exists tx,
        In tx unspentTXs /\ In out (Vout tx) /\
        CanBeUnlockedWith out address = true.
Proof.
  intros Hfut. eexists. split.
  - rewrite FindUTXO_unfold. cbn [fst]. rewrite Hfut. cbn.
    rewrite collect_outputs_flat_map. reflexivity.
  - intros out. rewrite in_flat_map. unfold unlockable.
    split; intros (tx & Htx & Hout); exists tx; split; auto.
    + now apply filter_In in Hout.
    + now apply filter_In.
Qed.

End Listing.

Lemma FindUnspentTransactions_lists_witness :
  exists unspentTXs,
    fst (FindUnspentTransactions (E := Sample.env) 5 "bob" Sample.ledger_spent) =
      Returned unspentTXs /\
    forall tx,
      In tx unspentTXs <->
      exists pre post i out,
        flat_map Transactions
          [MineBlock_newBlock (E := Sample.env) 3 [Sample.bob_spends]
             Sample.ledger_paid;
           MineBlock_newBlock (E := Sample.env) 2 [Sample.pay_bob]
             (mkWorld Sample.created [])] = pre ++ tx :: post /\
        Vout tx !! i = Some out /\
        CanBeUnlockedWith (Collaborators := Sample.env) out "bob" = true /\
        existsb (spends (E := Sample.env) "bob" (ID tx) (Z.of_nat i)) pre =
          false.
Proof.
  apply (FindUnspentTransactions_lists (E := Sample.env) 5 "bob"
           Sample.ledger_spent).
  vm_compute. reflexivity.
Defined.

Lemma FindUTXO_lists_witness :
  exists UTXOs,
    fst (FindUTXO (E := Sample.env) 5 "bob" Sample.ledger_spent) =
      Returned UTXOs /\
    forall out,
      In out UTXOs <->
      exists tx,
        In tx [Sample.pay_bob] /\ In out (Vout tx) /\
        CanBeUnlockedWith (Collaborators := Sample.env) out "bob" = true.
Proof.
  apply (FindUTXO_lists (E := Sample.env) 5 "bob" Sample.ledger_spent
           [Sample.pay_bob]).
  vm_compute. reflexivity.
Defined.

(** ** When the scan returns, loops or stops *)

Section Traversal.
Context `{E : Collaborators}.

Lemma walk_walks (w : World) (h : bytes) (bs : list Block) :
  walks (db (bc w)) h bs ->
  forall fuel seen, (length bs <= fuel)%nat ->
    walk fuel (mkIterator h) seen w = (Returned (seen ++ bs), w).
Proof.
  induction 1 as [h b Hdec Hp|h b rest Hdec Hp Hw IH];
    intros fuel seen Hfuel; cbn in Hfuel;
    (destruct fuel as [|fuel]; [lia|]); cbn; unfold bind;
    rewrite (Next_decoded (mkIterator h) w b Hdec); cbn.
  - now rewrite Hp.
  - rewrite (len_nonzero _ Hp), IH by lia. now rewrite <- app_assoc.
Qed.

Lemma walk_returned (fuel : nat) :
  forall (bci : BlockchainIterator) (w w' : World) (bs : list Block),
    walk fuel bci [] w = (Returned bs, w') ->
    walks (db (bc w)) (currentHash bci) bs /\ (length bs <= fuel)%nat /\
    w' = w.
Proof.
  induction fuel as [|fuel IH]; intros bci w w' bs Hrun; cbn in Hrun;
    [discriminate Hrun|].
  unfold bind, ret in Hrun.
  destruct (DeserializeBlock (Get (db (bc w)) (currentHash bci)))
    as [b|] eqn:Hdec.
  - rewrite (Next_decoded _ _ _ Hdec) in Hrun. cbn in Hrun.
    destruct (Z.eqb (len (PrevBlockHash b)) 0) eqn:Hz.
    + injection Hrun as <- <-. apply len_zero in Hz.
      split; [now apply walks_last|split; [cbn; lia|reflexivity]].
    + rewrite walk_seen in Hrun.
      destruct (walk fuel (mkIterator (PrevBlockHash b)) [] w)
        as [[rest| | |] w1] eqn:Hrest; cbn in Hrun; try discriminate Hrun.
      injection Hrun as <- <-.
      destruct (IH _ _ _ _ Hrest) as (Hw & Hlen & ->).
      split; [|split; [cbn; lia|reflexivity]].
      apply walks_more; auto.
      intros Hnil. apply len_zero in Hnil. rewrite Hnil in Hz. discriminate Hz.
  - rewrite (Next_undecoded _ _ Hdec) in Hrun. discriminate Hrun.
Qed.

Lemma FindUnspentTransactions_on_walks (address : string) (w : World)
    (bs : list Block) (fuel : nat) :
  walks (db (bc w)) (tip (bc w)) bs -> (length bs <= fuel)%nat ->
  FindUnspentTransactions fuel address w =
    (Returned (fst (fold_left (scan_block address) bs ([], ∅))), w).
Proof.
  intros Hw Hfuel. rewrite FindUnspentTransactions_walk.
  unfold blocks_from_tip, bind, Iterator, get_tip, ret. cbn.
  now rewrite (walk_walks w _ bs Hw fuel [] Hfuel).
Qed.

(** X3: when [FindUnspentTransactions] returns.  If the stored bytes decode,
    from the tip on and along [PrevBlockHash], down to a first block with an
    empty [PrevBlockHash], the call returns the scan of exactly those blocks,
    prints nothing and changes nothing, however many more rounds the loop
    would be allowed; and whenever the call returns, the chain from the tip
    is of that kind. *)
Theorem FindUnspentTransactions_returns (address : string) (w : World) :
  (forall bs fuel,
     walks (db (bc w)) (tip (bc w)) bs -> (length bs <= fuel)%nat ->
     FindUnspentTransactions fuel address w =
       (Returned (fst (fold_left (scan_block address) bs ([], ∅))), w)) /\
  (forall fuel unspentTXs,
     fst (FindUnspentTransactions fuel address w) = Returned unspentTXs ->
     exists bs,
       walks (db (bc w)) (tip (bc w)) bs /\ (length bs <= fuel)%nat /\
       unspentTXs = fst (fold_left (scan_block address) bs ([], ∅))).
Proof.
  split.
  - intros bs fuel Hw Hfuel. now apply FindUnspentTransactions_on_walks.
  - intros fuel unspentTXs Hret. rewrite FindUnspentTransactions_walk in Hret.
    cbn [fst] in Hret.
    unfold blocks_from_tip, bind, Iterator, get_tip, ret in Hret. cbn in Hret.
    destruct (walk fuel (mkIterator (tip (bc w))) [] w)
      as [[bs| | |] w'] eqn:Hwalk; cbn in Hret; try discriminate Hret.
    injection Hret as <-.
    destruct (walk_returned _ _ _ _ _ Hwalk) as (Hw & Hlen & _).
    exists bs. auto.
Qed.

Lemma walk_cycle (P : bytes -> Prop) (w : World) :
  (forall h, P h ->
     exists b,
       DeserializeBlock (Get (db (bc w)) h) = Some b /\
       PrevBlockHash b <> "" /\ P (PrevBlockHash b)) ->
  forall fuel h seen, P h ->
    walk fuel (mkIterator h) seen w = (OutOfFuel, w).
Proof.
  intros Hclosed. induction fuel as [|fuel IH]; intros h seen Hh; cbn;
    [reflexivity|].
  destruct (Hclosed h Hh) as (b & Hdec & Hp & Hnext).
  unfold bind. rewrite (Next_decoded (mkIterator h) w b Hdec). cbn.
  rewrite (len_nonzero _ Hp). now apply IH.
Qed.

(** X4: no guard against a chain that never ends.  If, from the tip on, every
    hash reached decodes to a block with a non-empty [PrevBlockHash] (a set
    of hashes closed under that step, as in a cycle), then
    [FindUnspentTransactions], [FindUTXO] and [FindSpendableOutputs] do not
    return, whatever number of rounds they are given. *)
Theorem scan_never_returns_on_cycle (P : bytes -> Prop) (address : string)
    (amount : Z) (w : World) (fuel : nat) :
  (forall h, P h ->
     exists b,
       DeserializeBlock (Get (db (bc w)) h) = Some b /\
       PrevBlockHash b <> "" /\ P (PrevBlockHash b)) ->
  P (tip (bc w)) ->
  fst (FindUnspentTransactions fuel address w) = OutOfFuel /\
  fst (FindUTXO fuel address w) = OutOfFuel /\
  fst (FindSpendableOutputs fuel address amount w) = OutOfFuel.
Proof.
  intros Hclosed Htip.
  assert (Hfut : fst (FindUnspentTransactions fuel address w) = OutOfFuel).
  { rewrite FindUnspentTransactions_walk. cbn [fst].
    unfold blocks_from_tip, bind, Iterator, get_tip, ret. cbn.
    now rewrite (walk_cycle P w Hclosed fuel _ [] Htip). }
  split; [exact Hfut|split].
  - rewrite FindUTXO_unfold. cbn [fst]. now rewrite Hfut.
  - rewrite FindSpendableOutputs_take_until. cbn [fst]. now rewrite Hfut.
Qed.

(** X5: a tip that does not decode.  When the bytes stored under the tip do
    not decode, each of [FindUnspentTransactions], [FindUTXO] and
    [FindSpendableOutputs] prints one line and stops in the nil pointer
    dereference of the first [Next]; the blockchain is left as it was. *)
Theorem scan_panics_on_undecodable_tip (address : string) (amount : Z)
    (w : World) (fuel : nat) :
  DeserializeBlock (Get (db (bc w)) (tip (bc w))) = None ->
  FindUnspentTransactions (S fuel) address w =
    (Panicked "invalid memory address or nil pointer dereference",
     mkWorld (bc w) (stdout w ++ ["Error deserializing block"])) /\
  FindUTXO (S fuel) address w =
    (Panicked "invalid memory address or nil pointer dereference",
     mkWorld (bc w) (stdout w ++ ["Error deserializing block"])) /\
  FindSpendableOutputs (S fuel) address amount w =
    (Panicked "invalid memory address or nil pointer dereference",
     mkWorld (bc w) (stdout w ++ ["Error deserializing block"])).
Proof.
  intros Hdec.
  assert (Hfut : FindUnspentTransactions (S fuel) address w =
                 (Panicked "invalid memory address or nil pointer dereference",
                  mkWorld (bc w) (stdout w ++ ["Error deserializing block"]))).
  { unfold FindUnspentTransactions, bind, Iterator, get_tip, ret. cbn.
    unfold bind. now rewrite (Next_undecoded (mkIterator (tip (bc w))) w Hdec). }
  split; [exact Hfut|split].
  - rewrite FindUTXO_unfold. now rewrite Hfut.
  - rewrite FindSpendableOutputs_take_until. now rewrite Hfut.
Qed.

End Traversal.

Lemma FindUnspentTransactions_returns_witness :
  FindUnspentTransactions (E := Sample.env) 7 "bob" Sample.ledger_spent =
    (Returned
       (fst
          (fold_left (scan_block (E := Sample.env) "bob")
             [MineBlock_newBlock (E := Sample.env) 3 [Sample.bob_spends]
                Sample.ledger_paid;
              MineBlock_newBlock (E := Sample.env) 2 [Sample.pay_bob]
                (mkWorld Sample.created [])]
             ([], ∅))),
     Sample.ledger_spent).
Proof.
  destruct (FindUnspentTransactions_returns (E := Sample.env) "bob"
              Sample.ledger_spent) as [H _].
  apply H; [|cbn; lia].
  apply walks_more; [vm_compute; reflexivity|vm_compute; discriminate|].
  apply walks_last; vm_compute; reflexivity.
Defined.

Lemma scan_never_returns_on_cycle_witness :
  fst (FindUnspentTransactions (E := Sample.env) 1000 "bob"
         (mkWorld Sample.looping [])) = OutOfFuel /\
  fst (FindUTXO (E := Sample.env) 1000 "bob" (mkWorld Sample.looping [])) =
    OutOfFuel /\
  fst (FindSpendableOutputs (E := Sample.env) 1000 "bob" 5
         (mkWorld Sample.looping [])) = OutOfFuel.
Proof.
  apply (scan_never_returns_on_cycle (E := Sample.env)
           (fun h => h = "loop") "bob" 5 (mkWorld Sample.looping []) 1000).
  - intros h ->. exists Sample.looping_block.
    split; [vm_compute; reflexivity|split; [discriminate|reflexivity]].
  - reflexivity.
Defined.

Lemma scan_panics_on_undecodable_tip_witness :
  FindUnspentTransactions (E := Sample.env) 3 "bob"
    (mkWorld Sample.corrupt []) =
    (Panicked "invalid memory address or nil pointer dereference",
     mkWorld Sample.corrupt ([] ++ ["Error deserializing block"])) /\
  FindUTXO (E := Sample.env) 3 "bob" (mkWorld Sample.corrupt []) =
    (Panicked "invalid memory address or nil pointer dereference",
     mkWorld Sample.corrupt ([] ++ ["Error deserializing block"])) /\
  FindSpendableOutputs (E := Sample.env) 3 "bob" 5
    (mkWorld Sample.corrupt []) =
    (Panicked "invalid memory address or nil pointer dereference",
     mkWorld Sample.corrupt ([] ++ ["Error deserializing block"])).
Proof.
  apply (scan_panics_on_undecodable_tip (E := Sample.env) "bob" 5
           (mkWorld Sample.corrupt []) 2).
  vm_compute. reflexivity.
Defined.

(** ** Creating, appending, reopening *)

Section Lifecycle.
Context `{E : Collaborators}.

(** What a successful [CreateBlockchain] has stored. *)
Lemma CreateBlockchain_store (address : string) (now : Z)
    (chain : Blockchain) (out : list string) :
  CreateBlockchain false address now = (Returned chain, out) ->
  exists ser,
    SerializeBlock
      (genesisBlock now (NewCoinbaseTX address genesisCoinbaseData)) =
      Some ser /\
    chain =
      mkBlockchain
        (Hash (genesisBlock now (NewCoinbaseTX address genesisCoinbaseData)))
        (<["l" :=
             Hash (genesisBlock now
                     (NewCoinbaseTX address genesisCoinbaseData))]>
           (<[Hash (genesisBlock now
                      (NewCoinbaseTX address genesisCoinbaseData)) := ser]>
              ∅)) /\
    out = [].
Proof.
  unfold CreateBlockchain. cbn.
  destruct (SerializeBlock _) as [ser|]; [|discriminate].
  unfold Put.
  destruct (put_error _ ser); [discriminate|].
  destruct (put_error "l" _); [discriminate|].
  intros [= <- <-]. exists ser. auto.
Qed.

(** X6: the reward of the genesis block can be queried at once.  On the
    blockchain that [CreateBlockchain] returns, when the stored genesis block
    decodes back and its coinbase transaction has the one output, which the
    address can unlock, [FindUTXO] for that address returns exactly that
    output, prints nothing and changes nothing. *)
Theorem genesis_reward_is_listed (address : string) (now : Z)
    (chain : Blockchain) (printed : list string) (out : TXOutput)
    (fuel : nat) :
  CreateBlockchain false address now = (Returned chain, printed) ->
  String.length (tip chain) = 32%nat ->
  (forall ser,
     SerializeBlock
       (genesisBlock now (NewCoinbaseTX address genesisCoinbaseData)) =
       Some ser ->
     DeserializeBlock ser =
       Some (genesisBlock now (NewCoinbaseTX address genesisCoinbaseData))) ->
  Vout (NewCoinbaseTX address genesisCoinbaseData) = [out] ->
  CanBeUnlockedWith out address = true ->
  FindUTXO (S fuel) address (mkWorld chain printed) =
    (Returned [out], mkWorld chain printed).
Proof.
  intros Hc Hlen Hcodec Hvout Hunlock.
  destruct (CreateBlockchain_store _ _ _ _ Hc) as (ser & Hser & Hchain & _).
  set (cb := NewCoinbaseTX address genesisCoinbaseData) in *.
  set (G := genesisBlock now cb) in *.
  assert (Htip : tip chain = Hash G) by (now rewrite Hchain).
  rewrite Htip in Hlen.
  destruct (length_32_not_key _ Hlen) as (_ & Hl & _).
  assert (Hw : walks (db (bc (mkWorld chain printed)))
                 (tip (bc (mkWorld chain printed))) [G]).
  { cbn. apply walks_last.
    - rewrite Htip. rewrite Hchain at 1. cbn.
      rewrite (Get_lookup _ _ ser); [now apply Hcodec|].
      rewrite lookup_insert_ne by (intros Heq; apply Hl; now rewrite Heq).
      apply lookup_insert_eq.
    - apply NewBlock_PrevBlockHash. }
  rewrite FindUTXO_unfold.
  rewrite (FindUnspentTransactions_on_walks address _ _ (S fuel) Hw)
    by (cbn; lia).
  cbn [fst snd map_result fold_left]. f_equal. f_equal.
  unfold scan_block, G, genesisBlock. rewrite NewBlock_Transactions.
  cbn [fold_left fst]. unfold scan_tx. cbn [fst snd]. fold cb.
  rewrite Hvout. cbn. rewrite is_spent_empty, Hunlock. cbn.
  unfold collect_outputs. cbn. rewrite Hvout. cbn. now rewrite Hunlock.
Qed.

(** X7: a created blockchain does not survive a restart.  On the database
    that [CreateBlockchain] has made, [NewBlockchain] opens a blockchain
    whose tip is empty; when empty bytes do not decode to a block, every
    [FindUTXO] on the reopened blockchain stops in the nil pointer
    dereference. *)
Theorem reopened_fresh_ledger_panics (address : string) (now : Z)
    (chain : Blockchain) (printed out : list string) (who : string)
    (fuel : nat) :
  CreateBlockchain false address now = (Returned chain, out) ->
  String.length (tip chain) = 32%nat ->
  DeserializeBlock "" = None ->
  NewBlockchain (Some (db chain)) =
    (Returned (mkBlockchain "" (db chain)), []) /\
  fst (FindUTXO (S fuel) who (mkWorld (mkBlockchain "" (db chain)) printed)) =
    Panicked "invalid memory address or nil pointer dereference".
Proof.
  intros Hc Hlen Hdec.
  destruct (fresh_ledger_keys _ _ _ _ Hc Hlen) as (_ & Habsent & _).
  destruct (CreateBlockchain_returned _ _ _ _ Hc) as (ser & Hchain & _).
  destruct (length_32_not_key _ Hlen) as (_ & _ & Hnil).
  split.
  - unfold NewBlockchain. now rewrite (Get_absent _ _ Habsent).
  - rewrite FindUTXO_unfold. cbn [fst].
    unfold FindUnspentTransactions, bind, Iterator, get_tip, ret. cbn.
    unfold bind. rewrite Next_undecoded; [reflexivity|]. cbn.
    rewrite Get_absent; [exact Hdec|].
    rewrite Hchain. cbn. rewrite lookup_insert_ne by discriminate.
    rewrite lookup_insert_ne by (intros Heq; apply Hnil; now rewrite Heq).
    apply lookup_empty.
Qed.

(** X8: an appended block survives a restart.  After a call of [MineBlock] in
    which nothing fails, [NewBlockchain] on the database as it then is opens
    a blockchain equal to the one in memory, tip included. *)
Theorem reopened_after_mining (now : Z) (txs : list Transaction) (w : World)
    (ser : bytes) :
  SerializeBlock (MineBlock_newBlock now txs w) = Some ser ->
  put_error (Hash (MineBlock_newBlock now txs w)) ser = None ->
  put_error "1" (Hash (MineBlock_newBlock now txs w)) = None ->
  NewBlockchain (Some (db (bc (snd (MineBlock now txs w))))) =
    (Returned (bc (snd (MineBlock now txs w))), []).
Proof.
  intros Hser Hp1 Hp2.
  rewrite (MineBlock_success_world _ _ _ _ Hser Hp1 Hp2). cbn.
  unfold NewBlockchain. rewrite (Get_lookup _ _ (Hash (MineBlock_newBlock now txs w)));
    [reflexivity|apply lookup_insert_eq].
Qed.

(** X9: the tip in memory and the stored pointer, with the store allowed to
    fail a transaction by itself.  As long as the commit does not fail, a
    call of [MineBlock] that starts with [bc.tip] equal to the value stored
    under "1" ends with the two equal, whether it went through, failed
    inside the closure, or could not begin one of its transactions.  When
    the closure has gone through and the commit then fails, the call still
    ends normally, [bc.tip] is the new block's hash, and the store, rolled
    back, holds neither the new block nor a new pointer.  Without faults
    this is the [MineBlock] above. *)
Theorem MineBlock_tip_runs_ahead_on_failed_commit (f : StoreFaults) (now : Z)
    (txs : list Transaction) (w : World) :
  (update_commit f = None ->
   tip (bc w) = Get (db (bc w)) "1" ->
   Hash (MineBlock_under_block f now txs w) <> "1" ->
   tip (bc (snd (MineBlock_under f now txs w))) =
     Get (db (bc (snd (MineBlock_under f now txs w)))) "1") /\
  (forall ser e,
     view_begin f = None -> update_begin f = None ->
     update_commit f = Some e ->
     SerializeBlock (MineBlock_newBlock now txs w) = Some ser ->
     put_error (Hash (MineBlock_newBlock now txs w)) ser = None ->
     put_error "1" (Hash (MineBlock_newBlock now txs w)) = None ->
     MineBlock_under f now txs w =
       (Returned tt,
        mkWorld (mkBlockchain (Hash (MineBlock_newBlock now txs w)) (db (bc w)))
          (stdout w))) /\
  MineBlock_under no_faults now txs w = MineBlock now txs w.
Proof.
  destruct f as [vb ub uc]. cbn [view_begin update_begin update_commit].
  split; [|split].
  - intros -> Hinv Hne. unfold MineBlock_under_block in Hne. cbn in Hne.
    unfold MineBlock_under, bind, View_under, Update_under, Printf, ret.
    cbn [view_begin update_begin update_commit].
    destruct vb as [ev|]; destruct ub as [eu|]; cbn; try exact Hinv.
    + set (nb := NewBlock now "" txs) in *.
      unfold MineBlock_update.
      destruct (SerializeBlock nb) as [ser|]; cbn; [|exact Hinv].
      unfold Put.
      destruct (put_error (Hash nb) ser); cbn; [exact Hinv|].
      destruct (put_error "1" (Hash nb)); cbn.
      * unfold Get. rewrite lookup_insert_ne by exact Hne. exact Hinv.
      * unfold Get. now rewrite lookup_insert_eq.
    + set (nb := NewBlock now (Get (db (bc w)) "1") txs) in *.
      unfold MineBlock_update.
      destruct (SerializeBlock nb) as [ser|]; cbn; [|exact Hinv].
      unfold Put.
      destruct (put_error (Hash nb) ser); cbn; [exact Hinv|].
      destruct (put_error "1" (Hash nb)); cbn.
      * unfold Get. rewrite lookup_insert_ne by exact Hne. exact Hinv.
      * unfold Get. now rewrite lookup_insert_eq.
  - intros ser e -> -> -> Hser Hp1 Hp2.
    unfold MineBlock_under, bind, View_under, Update_under, ret.
    cbn [view_begin update_begin update_commit]. cbn.
    fold (MineBlock_newBlock now txs w).
    unfold MineBlock_update. rewrite Hser.
    rewrite (Put_accepts _ _ _ Hp1), (Put_accepts _ _ _ Hp2). cbn.
    now rewrite app_nil_r.
  - unfold MineBlock_under, MineBlock, no_faults, bind, View_under, View,
      Update_under, Update, ret. cbn.
    destruct (tx_err _); reflexivity.
Qed.

(** X10: appending puts the new block on top of the chain.  If the value
    stored under "1" heads a chain of blocks [rest], then after a call of
    [MineBlock] that goes through the walk from the tip yields the new block
    followed by [rest], and nothing else has changed in what the walk
    sees. *)
Theorem MineBlock_extends_walk (now : Z) (txs : list Transaction) (w : World)
    (rest : list Block) (fuel : nat) :
  chain_at (db (bc w)) (Get (db (bc w)) "1") rest ->
  Get (db (bc w)) "1" <> "" ->
  mines now txs w ->
  (S (length rest) <= fuel)%nat ->
  fst (blocks_from_tip fuel (snd (MineBlock now txs w))) =
    Returned (MineBlock_newBlock now txs w :: rest).
Proof.
  intros Hc Hprev (ser & Hser & Hdec & Hp1 & Hp2 & Hlen & Hfresh) Hfuel.
  destruct (length_32_not_key _ Hlen) as (Hn1 & _ & _).
  rewrite (MineBlock_success_world _ _ _ _ Hser Hp1 Hp2).
  set (nb := MineBlock_newBlock now txs w) in *.
  unfold blocks_from_tip, bind, Iterator, get_tip, ret. cbn.
  assert (Hchain : chain_at
                     (<["1" := Hash nb]> (<[Hash nb := ser]> (db (bc w))))
                     (Hash nb) (nb :: rest)).
  { assert (Hp : PrevBlockHash nb = Get (db (bc w)) "1")
      by apply NewBlock_PrevBlockHash.
    apply (chain_link _ _ ser nb rest); auto.
    - rewrite lookup_insert_ne by (intros Heq; apply Hn1; now rewrite Heq).
      apply lookup_insert_eq.
    - now rewrite Hp.
    - rewrite Hp. apply (chain_at_frame (db (bc w))); [exact Hc|].
      intros k [v Hv] Hk1.
      rewrite lookup_insert_ne by (intros Heq; apply Hk1; now rewrite Heq).
      apply lookup_insert_ne. intros Heq. rewrite <- Heq, Hfresh in Hv.
      discriminate Hv. }
  rewrite (walk_chain_at
             (mkWorld (mkBlockchain (Hash nb) _) (stdout w)) _ _ Hchain fuel [])
    by (cbn; lia).
  reflexivity.
Qed.

End Lifecycle.

Lemma genesis_reward_is_listed_witness :
  FindUTXO (E := Sample.env_hex) 1 "alice" (mkWorld Sample.created_hex []) =
    (Returned [mkTXOutput 10 "alice"], mkWorld Sample.created_hex []).
Proof.
  apply (genesis_reward_is_listed (E := Sample.env_hex) "alice" 1
           Sample.created_hex [] (mkTXOutput 10 "alice") 0).
  - vm_compute. reflexivity.
  - reflexivity.
  - intros ser [= <-]. vm_compute. reflexivity.
  - reflexivity.
  - reflexivity.
Defined.

Lemma reopened_fresh_ledger_panics_witness :
  NewBlockchain (Some (db Sample.created)) =
    (Returned (mkBlockchain "" (db Sample.created)), []) /\
  fst (FindUTXO (E := Sample.env) 1 "alice"
         (mkWorld (mkBlockchain "" (db Sample.created)) [])) =
    Panicked "invalid memory address or nil pointer dereference".
Proof.
  apply (reopened_fresh_ledger_panics (E := Sample.env) "alice" 1
           Sample.created [] [] "alice" 0).
  - vm_compute. reflexivity.
  - reflexivity.
  - vm_compute. reflexivity.
Defined.

Lemma reopened_after_mining_witness :
  NewBlockchain
    (Some
       (db (bc (snd (MineBlock (E := Sample.env) 2 []
                       (mkWorld Sample.created [])))))) =
    (Returned
       (bc (snd (MineBlock (E := Sample.env) 2 []
                   (mkWorld Sample.created [])))), []).
Proof.
  apply (reopened_after_mining (E := Sample.env) 2 []
           (mkWorld Sample.created [])
           (Sample.serialized
              (MineBlock_newBlock (E := Sample.env) 2 []
                 (mkWorld Sample.created [])))).
  - reflexivity.
  - vm_compute. reflexivity.
  - vm_compute. reflexivity.
Defined.

Lemma MineBlock_tip_runs_ahead_on_failed_commit_witness :
  MineBlock_under (E := Sample.env)
    (mkStoreFaults None None (Some "commit failed")) 3 [Sample.bob_spends]
    Sample.ledger_paid =
    (Returned tt,
     mkWorld
       (mkBlockchain
          (Hash
             (MineBlock_newBlock (E := Sample.env) 3 [Sample.bob_spends]
                Sample.ledger_paid))
          (db (bc Sample.ledger_paid)))
       (stdout Sample.ledger_paid)).
Proof.
  destruct (MineBlock_tip_runs_ahead_on_failed_commit (E := Sample.env)
              (mkStoreFaults None None (Some "commit failed")) 3
              [Sample.bob_spends] Sample.ledger_paid) as (_ & H & _).
  apply (H (Sample.serialized
              (MineBlock_newBlock (E := Sample.env) 3 [Sample.bob_spends]
                 Sample.ledger_paid)) "commit failed");
    try reflexivity; vm_compute; reflexivity.
Defined.

(** On that ledger the tip then names a block that is not in the store,
    while the stored pointer still names the block before it. *)
Example tip_ahead_of_pointer :
  tip (bc (snd (MineBlock_under (E := Sample.env)
                  (mkStoreFaults None None (Some "commit failed")) 3
                  [Sample.bob_spends] Sample.ledger_paid))) =
    "Dgb00000000000000000000000000000" /\
  Get (db (bc (snd (MineBlock_under (E := Sample.env)
                      (mkStoreFaults None None (Some "commit failed")) 3
                      [Sample.bob_spends] Sample.ledger_paid)))) "1" =
    "Cab00000000000000000000000000000" /\
  db (bc (snd (MineBlock_under (E := Sample.env)
                 (mkStoreFaults None None (Some "commit failed")) 3
                 [Sample.bob_spends] Sample.ledger_paid)))
    !! "Dgb00000000000000000000000000000" = None.
Proof. vm_compute. repeat split; reflexivity. Qed.

Lemma MineBlock_extends_walk_witness :
  fst (blocks_from_tip (E := Sample.env) 4
         (snd (MineBlock (E := Sample.env) 3 [Sample.bob_spends]
                 Sample.ledger_paid))) =
    Returned
      [MineBlock_newBlock (E := Sample.env) 3 [Sample.bob_spends]
         Sample.ledger_paid;
       MineBlock_newBlock (E := Sample.env) 2 [Sample.pay_bob]
         (mkWorld Sample.created [])].
Proof.
  apply (MineBlock_extends_walk (E := Sample.env) 3 [Sample.bob_spends]
           Sample.ledger_paid
           [MineBlock_newBlock (E := Sample.env) 2 [Sample.pay_bob]
              (mkWorld Sample.created [])] 4).
  - eapply chain_last.
    + vm_compute. reflexivity.
    + vm_compute. reflexivity.
    + vm_compute. discriminate.
    + vm_compute. reflexivity.
    + vm_compute. reflexivity.
  - vm_compute. discriminate.
  - eexists. repeat split; vm_compute; reflexivity.
  - cbn. lia.
Defined.

(** ** How much is selected for spending *)

Section Selection.
Context `{E : Collaborators}.

Lemma wrap64_small (z : Z) : - 2 ^ 63 <= z < 2 ^ 63 -> wrap64 z = z.
Proof. intros H. unfold wrap64. rewrite Z.mod_small; lia. Qed.

Lemma take_until_short (amount : Z) (cands : list (string * Z * TXOutput)) :
  forall st,
    fst (take_until amount cands st) < amount ->
    take_until amount cands st = take_all cands st.
Proof.
  induction cands as [|[[txID idx] out] cands IH]; intros st Hlt; cbn;
    [reflexivity|].
  cbn in Hlt. destruct (Z.ltb (fst st) amount) eqn:Hst.
  - now apply IH.
  - apply Z.ltb_ge in Hst. lia.
Qed.

Lemma sum_values_cons (c : string * Z * TXOutput)
    (cands : list (string * Z * TXOutput)) :
  sum_values (c :: cands) = Value (snd c) + sum_values cands.
Proof. reflexivity. Qed.

Lemma sum_values_nonneg (cands : list (string * Z * TXOutput)) :
  Forall (fun c => 0 <= Value (snd c)) cands -> 0 <= sum_values cands.
Proof.
  induction 1 as [|c cs Hc _ IH]; [reflexivity|].
  rewrite sum_values_cons. lia.
Qed.

Lemma take_until_prefix (amount : Z) (cands : list (string * Z * TXOutput)) :
  forall acc m,
    0 <= acc -> acc + sum_values cands < 2 ^ 63 ->
    Forall (fun c => 0 <= Value (snd c)) cands ->
    exists sel rest,
      cands = sel ++ rest /\
      take_until amount cands (acc, m) =
        (acc + sum_values sel, group_indices sel m) /\
      (rest <> [] -> amount <= acc + sum_values sel) /\
      (forall sel' c, sel = sel' ++ [c] -> acc + sum_values sel' < amount).
Proof.
  induction cands as [|[[txID idx] out] cands IH]; intros acc m Hacc Hsum Hpos.
  - exists [], []. cbn. repeat split; try (rewrite Z.add_0_r; reflexivity).
    + intros H. now contradiction H.
    + intros sel' c H. destruct sel'; discriminate H.
  - inversion Hpos as [|c cs Hv Hrest]; subst. cbn [snd] in Hv.
    rewrite sum_values_cons in Hsum. cbn [snd] in Hsum.
    pose proof (sum_values_nonneg _ Hrest) as Hnn.
    cbn [take_until fst snd]. destruct (Z.ltb acc amount) eqn:Hlt.
    + unfold int_add. rewrite wrap64_small by lia.
      destruct (IH (acc + Value out) (map_append m txID idx))
        as (sel & rest & Hsplit & Hrun & Hreach & Hmin); [lia|lia|exact Hrest|].
      exists ((txID, idx, out) :: sel), rest.
      rewrite sum_values_cons. cbn [snd].
      split; [cbn; now rewrite Hsplit|].
      split; [rewrite Hrun; cbn; f_equal; lia|].
      split; [intros Hne; specialize (Hreach Hne); lia|].
      intros sel' c Heq. destruct sel' as [|s sel'].
      * cbn in Heq. injection Heq as _ _. cbn.
        apply Z.ltb_lt in Hlt. lia.
      * cbn in Heq. injection Heq as <- Hsel.
        specialize (Hmin _ _ Hsel). rewrite sum_values_cons. cbn [snd]. lia.
    + exists [], ((txID, idx, out) :: cands).
      apply Z.ltb_ge in Hlt. cbn.
      repeat split; try (rewrite Z.add_0_r; reflexivity).
      * intros _. lia.
      * intros sel' c H. destruct sel'; discriminate H.
Qed.

(** X11: nothing is selected for an amount that is not positive.  Whenever the
    scan returns, [FindSpendableOutputs] with [amount <= 0] returns the total
    0 and an empty selection. *)
Theorem FindSpendableOutputs_nonpositive_amount (fuel : nat)
    (address : string) (amount : Z) (w : World)
    (unspentTXs : list Transaction) :
  amount <= 0 ->
  fst (FindUnspentTransactions fuel address w) = Returned unspentTXs ->
  fst (FindSpendableOutputs fuel address amount w) = Returned (0, ∅).
Proof.
  intros Hle Hfut. rewrite FindSpendableOutputs_take_until. cbn [fst].
  rewrite Hfut. cbn. f_equal. apply take_until_reached. cbn.
  apply Z.ltb_ge. exact Hle.
Qed.

(** X12: a total below the amount means that everything was taken.  When
    [FindSpendableOutputs] returns a total smaller than the amount asked
    for, it has selected every output, unlockable by the address, of every
    entry of the list of [FindUnspentTransactions]: the total is the sum of
    all their values, wrapping at 64 bits, and the selection holds all their
    indices. *)
Theorem FindSpendableOutputs_short_takes_all (fuel : nat) (address : string)
    (amount : Z) (w : World) (unspentTXs : list Transaction)
    (accumulated : Z) (unspentOutputs : gmap string (list Z)) :
  fst (FindUnspentTransactions fuel address w) = Returned unspentTXs ->
  fst (FindSpendableOutputs fuel address amount w) =
    Returned (accumulated, unspentOutputs) ->
  accumulated < amount ->
  (accumulated, unspentOutputs) =
    take_all (candidates address unspentTXs) (0, ∅).
Proof.
  intros Hfut Hfso Hlt. rewrite FindSpendableOutputs_take_until in Hfso.
  cbn [fst] in Hfso. rewrite Hfut in Hfso. cbn in Hfso.
  injection Hfso as Hfso. rewrite <- Hfso.
  apply take_until_short. now rewrite Hfso.
Qed.

(** X13: the selection is the shortest run of candidates that reaches the
    amount.  When the values of the candidate outputs are not negative and
    add up to less than 2^63, [FindSpendableOutputs] selects a first part of
    the candidates, returns the plain sum of its values with its indices
    grouped by transaction id, has reached the amount whenever a candidate
    is left over, and had not reached it before the last one it took. *)
Theorem FindSpendableOutputs_selects_shortest_prefix (fuel : nat)
    (address : string) (amount : Z) (w : World)
    (unspentTXs : list Transaction) :
  fst (FindUnspentTransactions fuel address w) = Returned unspentTXs ->
  Forall (fun c => 0 <= Value (snd c)) (candidates address unspentTXs) ->
  sum_values (candidates address unspentTXs) < 2 ^ 63 ->
  exists sel rest,
    candidates address unspentTXs = sel ++ rest /\
    fst (FindSpendableOutputs fuel address amount w) =
      Returned (sum_values sel, group_indices sel ∅) /\
    (rest <> [] -> amount <= sum_values sel) /\
    (forall sel' c, sel = sel' ++ [c] -> sum_values sel' < amount).
Proof.
  intros Hfut Hpos Hsum.
  destruct (take_until_prefix amount (candidates address unspentTXs) 0 ∅)
    as (sel & rest & Hsplit & Hrun & Hreach & Hmin); [lia|lia|exact Hpos|].
  exists sel, rest. split; [exact Hsplit|]. split; [|split].
  - rewrite FindSpendableOutputs_take_until. cbn [fst]. rewrite Hfut. cbn.
    now rewrite Hrun.
  - exact Hreach.
  - exact Hmin.
Qed.

End Selection.

Lemma FindSpendableOutputs_nonpositive_amount_witness :
  fst (FindSpendableOutputs (E := Sample.env) 5 "bob" (-3) Sample.ledger_paid) =
    Returned (0, ∅).
Proof.
  apply (FindSpendableOutputs_nonpositive_amount (E := Sample.env) 5 "bob"
           (-3) Sample.ledger_paid [Sample.pay_bob; Sample.pay_bob]).
  - lia.
  - vm_compute. reflexivity.
Defined.

Lemma FindSpendableOutputs_short_takes_all_witness :
  (24,
   map_append
     (map_append (map_append (map_append ∅ "7431" 0) "7431" 1) "7431" 0)
     "7431" 1) =
    take_all
      (candidates (E := Sample.env) "bob" [Sample.pay_bob; Sample.pay_bob])
      (0, ∅).
Proof.
  apply (FindSpendableOutputs_short_takes_all (E := Sample.env) 5 "bob" 100
           Sample.ledger_paid [Sample.pay_bob; Sample.pay_bob]).
  - vm_compute. reflexivity.
  - vm_compute. reflexivity.
  - lia.
Defined.

Lemma FindSpendableOutputs_selects_shortest_prefix_witness :
  exists sel rest,
    candidates (E := Sample.env) "bob" [Sample.pay_bob; Sample.pay_bob] =
      sel ++ rest /\
    fst (FindSpendableOutputs (E := Sample.env) 5 "bob" 6 Sample.ledger_paid) =
      Returned (sum_values sel, group_indices sel ∅) /\
    (rest <> [] -> 6 <= sum_values sel) /\
    (forall sel' c, sel = sel' ++ [c] -> sum_values sel' < 6).
Proof.
  apply (FindSpendableOutputs_selects_shortest_prefix (E := Sample.env) 5
           "bob" 6 Sample.ledger_paid [Sample.pay_bob; Sample.pay_bob]).
  - vm_compute. reflexivity.
  - vm_compute. repeat constructor; intros H; discriminate H.
  - vm_compute. reflexivity.
Defined.

(** ** What [mineTxs] puts in the block and leaves in the mempool *)

Section MinerBlock.
Context `{E : Collaborators}.

Lemma collect_verified_into (ids : list string)
    (pool : gmap string Transaction) (tx : Transaction) :
  forall acc,
    In tx acc \/
    (exists id,
       In id ids /\ default zero_Transaction (pool !! id) = tx /\
       VerifyTransaction tx = true) ->
    In tx
      (fold_left
         (fun txs id =>
            let tx := default zero_Transaction (pool !! id) in
            if VerifyTransaction tx then txs ++ [tx] else txs)
         ids acc).
Proof.
  induction ids as [|id ids IH]; intros acc H; cbn.
  - destruct H as [H|(id & [] & _)]. exact H.
  - apply IH. destruct H as [H|(id' & [<-|Hid] & Hget & Hv)].
    + left. cbn.
      destruct (VerifyTransaction (default zero_Transaction (pool !! id)));
        [apply in_or_app|]; auto.
    + left. cbn. rewrite Hget, Hv. apply in_or_app. right. now left.
    + right. eauto.
Qed.

(** The transactions collected are exactly the mempool entries that
    verify. *)
Lemma collect_verified_iff (ids : list string)
    (pool : gmap string Transaction) (tx : Transaction) :
  enumerates ids pool ->
  In tx (collect_verified ids pool) <->
  exists k, pool !! k = Some tx /\ VerifyTransaction tx = true.
Proof.
  intros Henum. split.
  - now apply collect_verified_sound.
  - intros (k & Hk & Hv). apply collect_verified_into. right.
    exists k. split; [apply Henum; eauto|]. now rewrite Hk.
Qed.

Lemma collect_verified_all_verify (ids : list string)
    (pool : gmap string Transaction) :
  Forall (fun tx => VerifyTransaction tx = true) (collect_verified ids pool).
Proof.
  apply List.Forall_forall. intros tx Hin. apply collect_verified_from in Hin.
  destruct Hin as [[]|(id & _ & _ & Hv)]. exact Hv.
Qed.

Lemma remove_mined_lookup (txs : list Transaction) :
  forall (pool : gmap string Transaction) (k : string),
    remove_mined txs pool !! k =
      if existsb (fun tx => String.eqb (EncodeToString (ID tx)) k) txs
      then None else pool !! k.
Proof.
  intros pool k.
  destruct (existsb _ txs) eqn:Hex.
  - apply existsb_exists in Hex. destruct Hex as (tx & Hin & Heq).
    apply String.eqb_eq in Heq. subst k. now apply remove_mined_gone.
  - apply remove_mined_kept. intros tx Hin Heq.
    assert (existsb (fun tx => String.eqb (EncodeToString (ID tx)) k) txs = true)
      as Hyes.
    { apply existsb_exists. exists tx. split; [exact Hin|].
      now apply String.eqb_eq. }
    rewrite Hyes in Hex. discriminate Hex.
Qed.

(** When nothing in the mempool verifies, nothing is collected. *)
Lemma collect_verified_none (ids : list string)
    (pool : gmap string Transaction) :
  enumerates ids pool ->
  (forall k tx, pool !! k = Some tx -> VerifyTransaction tx = false) ->
  collect_verified ids pool = [].
Proof.
  intros Henum Hnone.
  destruct (collect_verified ids pool) as [|tx txs] eqn:Hc; [reflexivity|].
  assert (Hin : In tx (collect_verified ids pool)) by (rewrite Hc; now left).
  destruct (collect_verified_sound _ _ _ Henum Hin) as (id & Hid & Hv).
  rewrite (Hnone _ _ Hid) in Hv. discriminate Hv.
Qed.

Lemma mineTxs_nothing_verifies (ids : list string) (now : Z) (s : Server) :
  enumerates ids (memPool s) ->
  (forall k tx, memPool s !! k = Some tx -> VerifyTransaction tx = false) ->
  memPool s !! EncodeToString (ID (miner_coinbase s)) = None ->
  Transactions (newBlock (mineTxs ids now s)) = [miner_coinbase s] /\
  memPool (server_after (mineTxs ids now s)) = memPool s.
Proof.
  intros Henum Hnone Hcb. unfold mineTxs, gcd_MineBlock. cbn.
  fold (miner_coinbase s). rewrite NewBlock_Transactions.
  rewrite (collect_verified_none _ _ Henum Hnone). cbn.
  split; [reflexivity|]. now apply delete_id.
Qed.

Lemma miner_coinbase_stable (ids : list string) (now : Z) (s : Server) :
  miner_coinbase (server_after (mineTxs ids now s)) = miner_coinbase s.
Proof.
  unfold miner_coinbase, mineTxs. cbn.
  destruct (String.eqb (miningAddress s) "") eqn:Hm; [|now rewrite Hm].
  destruct (String.eqb CreateAddress "") eqn:Hc; [reflexivity|].
  reflexivity.
Qed.

(** X14: what the new block holds.  The block that [mineTxs] mines holds the
    coinbase transaction last and, before it, transactions that all passed
    verification; a transaction is in the block exactly when it is that
    coinbase or a mempool entry that verifies.  With nothing to include the
    block still holds the coinbase. *)
Theorem mineTxs_block_contents (ids : list string) (now : Z) (s : Server) :
  enumerates ids (memPool s) ->
  (exists front,
     Transactions (newBlock (mineTxs ids now s)) =
       front ++ [miner_coinbase s] /\
     Forall (fun tx => VerifyTransaction tx = true) front) /\
  (forall tx,
     In tx (Transactions (newBlock (mineTxs ids now s))) <->
     tx = miner_coinbase s \/
     exists k, memPool s !! k = Some tx /\ VerifyTransaction tx = true).
Proof.
  intros Henum. unfold mineTxs, gcd_MineBlock. cbn.
  fold (miner_coinbase s). rewrite NewBlock_Transactions. split.
  - eexists. split; [reflexivity|apply collect_verified_all_verify].
  - intros tx. rewrite in_app_iff, (collect_verified_iff _ _ _ Henum). cbn.
    split.
    + intros [H|[<-|[]]]; [now right|now left].
    + intros [->|H]; [right; now left|now left].
Qed.

(** X15: [mineTxs] never adds to the mempool.  Every entry of the mempool
    after the call was there, under the same key, before it. *)
Theorem mineTxs_mempool_only_shrinks (ids : list string) (now : Z)
    (s : Server) (k : string) (tx : Transaction) :
  memPool (server_after (mineTxs ids now s)) !! k = Some tx ->
  memPool s !! k = Some tx.
Proof.
  unfold mineTxs. cbn. rewrite remove_mined_lookup.
  destruct (existsb _ _); [discriminate|auto].
Qed.

(** X16: the order in which [range] hands out the mempool keys does not
    matter for the mempool.  Two runs of [mineTxs] on the same server that
    go through the keys in different orders leave the same mempool. *)
Theorem mineTxs_mempool_order_independent (ids1 ids2 : list string)
    (now1 now2 : Z) (s : Server) :
  enumerates ids1 (memPool s) ->
  enumerates ids2 (memPool s) ->
  memPool (server_after (mineTxs ids1 now1 s)) =
  memPool (server_after (mineTxs ids2 now2 s)).
Proof.
  intros H1 H2. unfold mineTxs. cbn. apply map_eq. intros k.
  rewrite !remove_mined_lookup.
  assert (Hsame :
    forall idsA idsB,
      enumerates idsA (memPool s) -> enumerates idsB (memPool s) ->
      existsb (fun tx => String.eqb (EncodeToString (ID tx)) k)
        (collect_verified idsA (memPool s) ++
         [NewCoinbaseTX
            (if String.eqb (miningAddress s) "" then CreateAddress
             else miningAddress s) ""]) = true ->
      existsb (fun tx => String.eqb (EncodeToString (ID tx)) k)
        (collect_verified idsB (memPool s) ++
         [NewCoinbaseTX
            (if String.eqb (miningAddress s) "" then CreateAddress
             else miningAddress s) ""]) = true).
  { intros idsA idsB HA HB Hex. apply existsb_exists in Hex.
    destruct Hex as (tx & Hin & Heq). apply existsb_exists.
    exists tx. split; [|exact Heq].
    apply in_app_or in Hin. apply in_or_app.
    destruct Hin as [Hin|Hin]; [left|now right].
    apply (collect_verified_iff _ _ _ HB).
    now apply (collect_verified_iff _ _ _ HA). }
  destruct (existsb _ (collect_verified ids1 _ ++ _)) eqn:Ha.
  - now rewrite (Hsame ids1 ids2 H1 H2 Ha).
  - destruct (existsb _ (collect_verified ids2 _ ++ _)) eqn:Hb; [|reflexivity].
    rewrite (Hsame ids2 ids1 H2 H1 Hb) in Ha. discriminate Ha.
Qed.

(** X17: who is told about the new block.  [mineTxs] sends one inventory
    message of kind "block", carrying exactly the hash of the new block, to
    each known node whose address differs from the node's own, and none to
    any other address. *)
Theorem mineTxs_announces_to_others (ids : list string) (now : Z)
    (s : Server) (inv : Inv) :
  In inv (announced (mineTxs ids now s)) <->
  exists node,
    In node (knownNodes s) /\ Address node <> nodeAddress s /\
    inv = mkInv (Address node) "block" [Hash (newBlock (mineTxs ids now s))].
Proof.
  unfold mineTxs, announce. cbn. rewrite in_flat_map. split.
  - intros (node & Hin & Hinv). exists node. split; [exact Hin|].
    destruct (String.eqb_spec (Address node) (nodeAddress s)) as [Heq|Hne];
      [destruct Hinv|].
    destruct Hinv as [<-|[]]. auto.
  - intros (node & Hin & Hne & ->). exists node. split; [exact Hin|].
    destruct (String.eqb_spec (Address node) (nodeAddress s)) as [Heq|_];
      [contradiction|]. now left.
Qed.

(** X18: transactions that do not verify clog the miner.  When the mempool
    holds more than two transactions and none of them verifies, every
    message on [minerChan] makes [StartMiner] mine a block that holds the
    coinbase transaction alone, and the mempool is afterwards what it was;
    so a run of such messages yields as many such blocks. *)
Theorem StartMiner_mines_empty_blocks (rounds : list (list string * Z * bytes))
    (m : Miner) :
  2 < Z.of_nat (size (memPool (miner_server m))) ->
  (forall k tx, memPool (miner_server m) !! k = Some tx ->
     VerifyTransaction tx = false) ->
  memPool (miner_server m)
    !! EncodeToString (ID (miner_coinbase (miner_server m))) = None ->
  Forall (fun r => enumerates (fst (fst r)) (memPool (miner_server m))) rounds ->
  memPool
    (miner_server
       (fst (StartMiner_rounds
               (map (fun r => (fst (fst r), snd (fst r), TxMessage (snd r)))
                  rounds) m))) = memPool (miner_server m) /\
  length
    (snd (StartMiner_rounds
            (map (fun r => (fst (fst r), snd (fst r), TxMessage (snd r)))
               rounds) m)) = length rounds /\
  Forall
    (fun b => Transactions (newBlock b) = [miner_coinbase (miner_server m)])
    (snd (StartMiner_rounds
            (map (fun r => (fst (fst r), snd (fst r), TxMessage (snd r)))
               rounds) m)).
Proof.
  revert m. induction rounds as [|[[ids now] msg] rounds IH];
    intros m Hsize Hnone Hcb Henum.
  - cbn. auto.
  - inversion Henum as [|r rs Hids Hrest]; subst. cbn in Hids.
    cbn [map StartMiner_rounds fst snd StartMiner_round].
    assert (Hgt : Z.gtb (Z.of_nat (size (memPool (miner_server m)))) 2 = true)
      by (apply Z.gtb_lt; exact Hsize).
    rewrite Hgt. cbn [fst snd miner_server].
    destruct (mineTxs_nothing_verifies ids now (miner_server m) Hids Hnone Hcb)
      as (Hblock & Hpool).
    pose proof (miner_coinbase_stable ids now (miner_server m)) as Hstable.
    destruct (IH (mkMiner (server_after (mineTxs ids now (miner_server m)))
                    false)) as (IH1 & IH2 & IH3); cbn [miner_server].
    + now rewrite Hpool.
    + now rewrite Hpool.
    + now rewrite Hpool, Hstable.
    + now rewrite Hpool.
    + cbn [miner_server] in IH1, IH2, IH3.
      rewrite Hpool in IH1. rewrite Hstable in IH3. cbn [length].
      split; [exact IH1|split; [now rewrite IH2|]].
      constructor; [exact Hblock|exact IH3].
Qed.

(** X19: a stop signal does not stop [StartMiner].  The round that receives a
    value on [quitChan] changes nothing and the loop goes on: what the loop
    does on a run of events is what it does on the run without the stop
    signals in it. *)
Theorem StartMiner_ignores_stop_signal
    (before after : list (list string * Z * MinerEvent)) (ids : list string)
    (now v : Z) (m : Miner) :
  StartMiner_rounds (before ++ (ids, now, StopSignal v) :: after) m =
  StartMiner_rounds (before ++ after) m.
Proof.
  revert m. induction before as [|[[ids' now'] ev] before IH]; intros m.
  - cbn. now destruct (StartMiner_rounds after m).
  - cbn [app StartMiner_rounds]. now rewrite IH.
Qed.

(** X20: the busy flag never holds a trigger back.  If [miningTxs] is false
    when [StartMiner] starts, it is false again after every round, so a
    message on [timeChan] makes the loop mine exactly when it carries more
    than 2 minutes. *)
Theorem StartMiner_flag_is_clear_between_rounds
    (evs : list (list string * Z * MinerEvent)) (m : Miner)
    (ids : list string) (now : Z) (msg : float) :
  miningTxs m = false ->
  miningTxs (fst (StartMiner_rounds evs m)) = false /\
  snd (StartMiner_round ids now (TimeMessage msg)
         (fst (StartMiner_rounds evs m))) =
    if PrimFloat.ltb 2%float msg
    then Some (mineTxs ids now (miner_server (fst (StartMiner_rounds evs m))))
    else None.
Proof.
  intros Hclear.
  assert (Hinv : miningTxs (fst (StartMiner_rounds evs m)) = false).
  { revert m Hclear. induction evs as [|[[ids' now'] ev] evs IH];
      intros m Hclear; [exact Hclear|].
    cbn [StartMiner_rounds fst]. apply IH.
    destruct ev as [v|tx|t]; cbn.
    - exact Hclear.
    - destruct (Z.gtb _ 2); [reflexivity|exact Hclear].
    - destruct (PrimFloat.ltb 2 t && negb (miningTxs m)); [reflexivity|exact Hclear]. }
  split; [exact Hinv|]. cbn. rewrite Hinv. cbn.
  destruct (PrimFloat.ltb 2 msg); reflexivity.
Qed.

End MinerBlock.

Lemma sample_server_enumerated (ids : list string) :
  ids = ["7432"; "7433"] \/ ids = ["7433"; "7432"] ->
  enumerates ids (memPool Sample.server).
Proof.
  intros Hids k. unfold Sample.server. cbn. split.
  - intros Hin. assert (k = "7432" \/ k = "7433") as [->| ->].
    { destruct Hids as [-> | ->]; cbn in Hin; intuition auto. }
    + vm_compute. eauto.
    + vm_compute. eauto.
  - intros [tx Hk].
    apply lookup_insert_Some in Hk. destruct Hk as [[<- _]|[_ Hk]].
    + destruct Hids as [-> | ->]; cbn; auto.
    + apply lookup_insert_Some in Hk. destruct Hk as [[<- _]|[_ Hk]].
      * destruct Hids as [-> | ->]; cbn; auto.
      * rewrite lookup_empty in Hk. discriminate Hk.
Qed.

Lemma sample_clogged_enumerated :
  enumerates ["7433"; "7434"; "7435"] (memPool Sample.clogged).
Proof.
  intros k. unfold Sample.clogged. cbn. split.
  - intros [<-|[<-|[<-|[]]]]; vm_compute; eauto.
  - intros [tx Hk].
    apply lookup_insert_Some in Hk. destruct Hk as [[<- _]|[_ Hk]]; [auto|].
    apply lookup_insert_Some in Hk. destruct Hk as [[<- _]|[_ Hk]]; [auto|].
    apply lookup_insert_Some in Hk. destruct Hk as [[<- _]|[_ Hk]]; [auto|].
    rewrite lookup_empty in Hk. discriminate Hk.
Qed.

Lemma sample_clogged_none_verifies (k : string) (tx : Transaction) :
  memPool Sample.clogged !! k = Some tx ->
  VerifyTransaction (Collaborators := Sample.env) tx = false.
Proof.
  unfold Sample.clogged. cbn. intros Hk.
  apply lookup_insert_Some in Hk. destruct Hk as [[_ <-]|[_ Hk]]; [reflexivity|].
  apply lookup_insert_Some in Hk. destruct Hk as [[_ <-]|[_ Hk]]; [reflexivity|].
  apply lookup_insert_Some in Hk. destruct Hk as [[_ <-]|[_ Hk]]; [reflexivity|].
  rewrite lookup_empty in Hk. discriminate Hk.
Qed.

Lemma mineTxs_block_contents_witness :
  (exists front,
     Transactions
       (newBlock (mineTxs (E := Sample.env) ["7432"; "7433"] 4 Sample.server)) =
       front ++ [miner_coinbase (E := Sample.env) Sample.server] /\
     Forall
       (fun tx => VerifyTransaction (Collaborators := Sample.env) tx = true)
       front) /\
  (forall tx,
     In tx
       (Transactions
          (newBlock
             (mineTxs (E := Sample.env) ["7432"; "7433"] 4 Sample.server))) <->
     tx = miner_coinbase (E := Sample.env) Sample.server \/
     exists k,
       memPool Sample.server !! k = Some tx /\
       VerifyTransaction (Collaborators := Sample.env) tx = true).
Proof.
  apply (mineTxs_block_contents (E := Sample.env) ["7432"; "7433"] 4
           Sample.server).
  apply sample_server_enumerated. now left.
Defined.

Lemma mineTxs_mempool_only_shrinks_witness :
  memPool Sample.server !! "7433" = Some Sample.unsigned.
Proof.
  apply (mineTxs_mempool_only_shrinks (E := Sample.env) ["7432"; "7433"] 4
           Sample.server "7433" Sample.unsigned).
  vm_compute. reflexivity.
Defined.

Lemma mineTxs_mempool_order_independent_witness :
  memPool
    (server_after (mineTxs (E := Sample.env) ["7432"; "7433"] 4 Sample.server)) =
  memPool
    (server_after (mineTxs (E := Sample.env) ["7433"; "7432"] 5 Sample.server)).
Proof.
  apply (mineTxs_mempool_order_independent (E := Sample.env)
           ["7432"; "7433"] ["7433"; "7432"] 4 5 Sample.server).
  - apply sample_server_enumerated. now left.
  - apply sample_server_enumerated. now right.
Defined.

Lemma mineTxs_announces_to_others_witness :
  In (mkInv "peer:3000" "block"
        [Hash (newBlock
                 (mineTxs (E := Sample.env) ["7432"; "7433"] 4 Sample.server))])
    (announced (mineTxs (E := Sample.env) ["7432"; "7433"] 4 Sample.server)).
Proof.
  apply (mineTxs_announces_to_others (E := Sample.env) ["7432"; "7433"] 4
           Sample.server).
  exists (mkPeer "peer:3000").
  split; [right; now left|split; [discriminate|reflexivity]].
Defined.

Lemma StartMiner_mines_empty_blocks_witness :
  memPool
    (miner_server
       (fst (StartMiner_rounds (E := Sample.env)
               (map (fun r => (fst (fst r), snd (fst r), TxMessage (snd r)))
                  [(["7433"; "7434"; "7435"], 4, "t5");
                   (["7433"; "7434"; "7435"], 5, "t5")])
               (mkMiner Sample.clogged false)))) =
    memPool Sample.clogged /\
  length
    (snd (StartMiner_rounds (E := Sample.env)
            (map (fun r => (fst (fst r), snd (fst r), TxMessage (snd r)))
               [(["7433"; "7434"; "7435"], 4, "t5");
                (["7433"; "7434"; "7435"], 5, "t5")])
            (mkMiner Sample.clogged false))) = 2%nat /\
  Forall
    (fun b =>
       Transactions (newBlock b) =
         [miner_coinbase (E := Sample.env) Sample.clogged])
    (snd (StartMiner_rounds (E := Sample.env)
            (map (fun r => (fst (fst r), snd (fst r), TxMessage (snd r)))
               [(["7433"; "7434"; "7435"], 4, "t5");
                (["7433"; "7434"; "7435"], 5, "t5")])
            (mkMiner Sample.clogged false))).
Proof.
  apply (StartMiner_mines_empty_blocks (E := Sample.env)
           [(["7433"; "7434"; "7435"], 4, "t5");
            (["7433"; "7434"; "7435"], 5, "t5")]
           (mkMiner Sample.clogged false)).
  - vm_compute. reflexivity.
  - apply sample_clogged_none_verifies.
  - vm_compute. reflexivity.
  - constructor; [apply sample_clogged_enumerated|].
    constructor; [apply sample_clogged_enumerated|constructor].
Defined.

Lemma StartMiner_flag_is_clear_between_rounds_witness :
  miningTxs
    (fst (StartMiner_rounds (E := Sample.env)
            [(["7433"; "7434"; "7435"], 4, TxMessage "t5")]
            (mkMiner Sample.clogged false))) = false /\
  snd (StartMiner_round (E := Sample.env) ["7433"; "7434"; "7435"] 5
         (TimeMessage 3%float)
         (fst (StartMiner_rounds (E := Sample.env)
                 [(["7433"; "7434"; "7435"], 4, TxMessage "t5")]
                 (mkMiner Sample.clogged false)))) =
    if PrimFloat.ltb 2%float 3%float
    then
      Some
        (mineTxs (E := Sample.env) ["7433"; "7434"; "7435"] 5
           (miner_server
              (fst (StartMiner_rounds (E := Sample.env)
                      [(["7433"; "7434"; "7435"], 4, TxMessage "t5")]
                      (mkMiner Sample.clogged false)))))
    else None.
Proof.
  apply (StartMiner_flag_is_clear_between_rounds (E := Sample.env)
           [(["7433"; "7434"; "7435"], 4, TxMessage "t5")]
           (mkMiner Sample.clogged false) ["7433"; "7434"; "7435"] 5 3%float).
  reflexivity.
Defined.
